(** * Cron expression parser: field expansion and report composition

    A shallow embedding of [src/index.ts] ([parseField],
    [parseCronExpression], [FIELD_CONFIGS]) and the properties of it that
    the specification states.

    Modelling conventions.
    - A JavaScript string is a [string]: a sequence of code units, here the
      code units 0..255.
    - A JavaScript number that holds an integer is a [Z]; [NaN], which the
      program only ever obtains from [parseInt], is [None] in an [option Z].
      Integers are taken as exact (no rounding above 2^53).
    - [throw new Error(msg)] is [Throw e], where [e : ParseError] names the
      throw site and carries the values interpolated in its message;
      [message e] renders the message text.
    - [Set<number>] is a duplicate-free list in insertion order. *)

From Stdlib Require Import ZArith List String Ascii Bool Lia.
From Stdlib Require Import Sorting.Mergesort Sorting.Sorted Sorting.Permutation.
From Stdlib Require Import Orders DecimalString.
From Stdlib Require DecimalPos.
Import ListNotations.

Local Open Scope string_scope.
Local Open Scope Z_scope.

(** ** Strings *)

Module JsString.

(** [s.includes(c)] for a one-character needle [c]. *)
Fixpoint includes (c : ascii) (s : string) : bool :=
  match s with
  | EmptyString => false
  | String a s' => if Ascii.eqb a c then true else includes c s'
  end.

(** [s.indexOf(c)] for a one-character needle: the index of the first
    occurrence, [-1] when there is none. *)
Fixpoint indexOf (c : ascii) (s : string) : Z :=
  match s with
  | EmptyString => -1
  | String a s' =>
      if Ascii.eqb a c then 0
      else let i := indexOf c s' in if i <? 0 then -1 else i + 1
  end.

(** [s.split(c)] for a one-character separator: the pieces between the
    separators, empty pieces kept; the result of splitting the empty string
    is the one-element array holding the empty string. *)
Fixpoint split (c : ascii) (s : string) : list string :=
  match s with
  | EmptyString => [EmptyString]
  | String a s' =>
      if Ascii.eqb a c then EmptyString :: split c s'
      else match split c s' with
           | piece :: pieces => String a piece :: pieces
           | [] => [String a EmptyString]
           end
  end.

(** [pieces.join(sep)]. *)
Fixpoint join (sep : string) (pieces : list string) : string :=
  match pieces with
  | [] => EmptyString
  | [piece] => piece
  | piece :: rest => piece ++ sep ++ join sep rest
  end.

(** White space and line terminators among the code units 0..255: TAB, LF,
    VT, FF, CR, SPACE and NO-BREAK SPACE. This is the set that [trim],
    the regular expression class [\s] and [parseInt] skip. *)
Definition isWhiteSpace (a : ascii) : bool :=
  let n := nat_of_ascii a in
  (Nat.eqb n 9 || Nat.eqb n 10 || Nat.eqb n 11 || Nat.eqb n 12
   || Nat.eqb n 13 || Nat.eqb n 32 || Nat.eqb n 160)%bool.

Fixpoint trimStart (s : string) : string :=
  match s with
  | EmptyString => EmptyString
  | String a s' => if isWhiteSpace a then trimStart s' else s
  end.

(** Removal of trailing white space: a character is dropped when it is white
    space and everything after it has been dropped. *)
Fixpoint trimEnd (s : string) : string :=
  match s with
  | EmptyString => EmptyString
  | String a s' =>
      match trimEnd s' with
      | EmptyString => if isWhiteSpace a then EmptyString
                       else String a EmptyString
      | t => String a t
      end
  end.

(** [s.trim()]. *)
Definition trim (s : string) : string := trimEnd (trimStart s).

(** [s.split(/\s+/)]: the pieces between the maximal runs of white space;
    a run at the very start or end leaves an empty piece there, and the
    empty string gives one empty piece. [inRun] tells that the previous
    character belonged to a separator run. *)
Fixpoint splitWsFrom (inRun : bool) (s : string) : list string :=
  match s with
  | EmptyString => [EmptyString]
  | String a s' =>
      if isWhiteSpace a then
        if inRun then splitWsFrom true s'
        else EmptyString :: splitWsFrom true s'
      else match splitWsFrom false s' with
           | piece :: pieces => String a piece :: pieces
           | [] => [String a EmptyString]
           end
  end.

Definition splitWhitespace (s : string) : list string :=
  splitWsFrom false s.

(** [s.padEnd(n)]: spaces appended up to length [n]. *)
Fixpoint spaces (n : nat) : string :=
  match n with
  | O => EmptyString
  | S n' => String " "%char (spaces n')
  end.

Definition padEnd (n : nat) (s : string) : string :=
  s ++ spaces (n - String.length s).

End JsString.

(** ** Numbers *)

Module JsNumber.

Definition isDigit (a : ascii) : bool :=
  let n := nat_of_ascii a in (Nat.leb 48 n && Nat.leb n 57)%bool.

Definition digitValue (a : ascii) : Z := Z.of_nat (nat_of_ascii a) - 48.

(** The value of the longest prefix of decimal digits of [s], read after
    the digits accumulated in [acc]; [seen] tells whether a digit has been
    read. No digit at all gives [None]. *)
Fixpoint digits (seen : bool) (acc : Z) (s : string) : option Z :=
  match s with
  | EmptyString => if seen then Some acc else None
  | String a s' =>
      if isDigit a then digits true (10 * acc + digitValue a) s'
      else if seen then Some acc else None
  end.

(** [parseInt(s, 10)]: leading white space is skipped, one sign is
    accepted, then the longest run of decimal digits is read and whatever
    follows is ignored. [None] is [NaN]. The value is the exact integer of
    the digits; the source gets the nearest number, which is the same
    integer below 2^53. *)
Definition parseInt (s : string) : option Z :=
  match JsString.trimStart s with
  | String "-"%char s' => option_map Z.opp (digits false 0 s')
  | String "+"%char s' => digits false 0 s'
  | s' => digits false 0 s'
  end.

(** The decimal text of an integer, as in a template literal or [join].
    This is the text the source writes for integers below 10^21 in absolute
    value, which covers every integer that a number holds exactly. *)
Definition toString (n : Z) : string := NilZero.string_of_int (Z.to_int n).

End JsNumber.

Import JsString JsNumber.

(** ** Errors *)

(** One constructor per [throw] of the source, with the values its message
    interpolates. *)
Inductive ParseError : Type :=
| StepValueError (stepStr : string)          (* "Invalid step value: ..." *)
| StepRangeError (range : string)            (* "Invalid range in step expression: ..." *)
| StepStartError (range : string)            (* "Invalid value in step expression: ..." *)
| RangeParseError (part : string)            (* "Invalid range: ..." *)
| RangeOrderError (start_ end_ : Z)          (* "Invalid range: start (..) > end (..)" *)
| ValueParseError (part : string)            (* "Invalid value: ..." *)
| ValueBoundsError (value min max : Z)       (* "Value .. out of range [..-..]" *)
| FieldCountError (count : nat).             (* "Invalid cron expression. ..." *)

(** The text of the thrown [Error]. *)
Definition message (e : ParseError) : string :=
  match e with
  | StepValueError stepStr => "Invalid step value: " ++ stepStr
  | StepRangeError range => "Invalid range in step expression: " ++ range
  | StepStartError range => "Invalid value in step expression: " ++ range
  | RangeParseError part => "Invalid range: " ++ part
  | RangeOrderError start_ end_ =>
      "Invalid range: start (" ++ toString start_ ++ ") > end ("
        ++ toString end_ ++ ")"
  | ValueParseError part => "Invalid value: " ++ part
  | ValueBoundsError value min max =>
      "Value " ++ toString value ++ " out of range [" ++ toString min ++ "-"
        ++ toString max ++ "]"
  | FieldCountError count =>
      "Invalid cron expression. Expected at least 6 fields, got "
        ++ toString (Z.of_nat count) ++ ". "
        ++ "Format: <minute> <hour> <day of month> <month> <day of week> <command>"
  end.

(** The error classes of the specification, told apart as the test suite does,
    by the leading words of the message. *)
Inductive ErrorKind : Type :=
| InvalidValue | OutOfRange | InvalidRange | InvalidStep | MalformedExpression.

Definition kind (e : ParseError) : ErrorKind :=
  match e with
  | StepValueError _ => InvalidStep
  | StepRangeError _ | RangeParseError _ | RangeOrderError _ _ => InvalidRange
  | StepStartError _ | ValueParseError _ => InvalidValue
  | ValueBoundsError _ _ _ => OutOfRange
  | FieldCountError _ => MalformedExpression
  end.

Inductive result (A : Type) : Type :=
| Ok (a : A)
| Throw (e : ParseError).

Arguments Ok {A} a.
Arguments Throw {A} e.

Definition bind {A B : Type} (r : result A) (k : A -> result B) : result B :=
  match r with
  | Ok a => k a
  | Throw e => Throw e
  end.

Notation "x <- r ;; k" := (bind r (fun x => k))
  (at level 61, r at next level, right associativity).

(** The run fails with an error of class [k]. *)
Definition failsWith {A : Type} (r : result A) (k : ErrorKind) : Prop :=
  exists e, r = Throw e /\ kind e = k.

(** ** The set of collected values *)

Module NumberSet.

(** [Set<number>]: the members in insertion order, each once. *)
Definition t : Type := list Z.

Definition empty : t := [].

(** [values.add(x)]: a new member goes last, a present one changes nothing. *)
Fixpoint add (x : Z) (values : t) : t :=
  match values with
  | [] => [x]
  | y :: rest => if x =? y then values else y :: add x rest
  end.

End NumberSet.

Module ZOrder <: TotalLeBool.
Definition t := Z.
Definition leb := Z.leb.
Theorem leb_total : forall a1 a2, leb a1 a2 = true \/ leb a2 a1 = true.
Proof. intros a1 a2; unfold leb; destruct (Z.leb_spec a1 a2); [left | right]; auto; apply Z.leb_le; lia. Qed.
End ZOrder.

Module ZSort := Sort ZOrder.

(** [Array.from(values).sort((a, b) => a - b)]: the members in ascending
    numeric order. *)
Definition sortNumeric (values : NumberSet.t) : list Z := ZSort.sort values.

(** ** parseField *)

(** [for (let i = start; i <= stop; i += step) body(i)], as a fold over the
    set being built. [fuel] bounds the number of iterations. The counter is
    an exact integer: the loop is the one of the source as long as [start],
    [stop] and [step] are integers that a number holds exactly
    ([safeInteger] below); from 2^53 on the counter of the source is rounded
    and its loop may not end, which this definition does not show. *)
Fixpoint forLoop (fuel : nat) (i stop step : Z)
    (body : Z -> NumberSet.t -> NumberSet.t) (values : NumberSet.t)
    : NumberSet.t :=
  match fuel with
  | O => values
  | S fuel' =>
      if i <=? stop then forLoop fuel' (i + step) stop step body (body i values)
      else values
  end.

(** With a step of at least one, the loop from [start] runs at most
    [stop - start + 1] times. *)
Definition iterations (start stop : Z) : nat := Z.to_nat (stop - start + 1).

(** [if (i >= min && i <= max) values.add(i)]. *)
Definition addInWindow (min max : Z) (i : Z) (values : NumberSet.t)
    : NumberSet.t :=
  if (i >=? min) && (i <=? max) then NumberSet.add i values else values.

(** [const [start, end] = s.split('-').map(s => parseInt(s, 10))]: the first
    two pieces parsed; a missing piece is [undefined], which [isNaN] treats
    as [NaN]. *)
Definition rangeBounds (s : string) : option Z * option Z :=
  match split "-" s with
  | a :: b :: _ => (parseInt a, parseInt b)
  | [a] => (parseInt a, None)
  | [] => (None, None)
  end.

(** [const [range, stepStr] = part.split('/')]. A missing second piece is
    [undefined], which [parseInt] and the message read as the text
    "undefined". *)
Definition stepPieces (part : string) : string * string :=
  match split "/" part with
  | range :: stepStr :: _ => (range, stepStr)
  | [range] => (range, "undefined")
  | [] => ("undefined", "undefined")
  end.

(** Lines 66-86: the interval [[rangeMin, rangeMax]] that a step expression
    walks. It starts as the whole field; a range replaces both ends, a single
    value only the lower one. *)
Definition stepInterval (min max : Z) (range : string) : result (Z * Z) :=
  if String.eqb range "*" then Ok (min, max)
  else if includes "-" range then
    match rangeBounds range with
    | (Some start_, Some end_) => Ok (start_, end_)
    | _ => Throw (StepRangeError range)
    end
  else
    match parseInt range with
    | Some rangeMin => Ok (rangeMin, max)
    | None => Throw (StepStartError range)
    end.

(** The body of the loop over the comma-separated parts (lines 56-132):
    what one part adds to [values], or the error it throws. *)
Definition processPart (min max : Z) (values : NumberSet.t) (part : string)
    : result NumberSet.t :=
  if includes "/" part then
    let '(range, stepStr) := stepPieces part in
    match parseInt stepStr with
    | None => Throw (StepValueError stepStr)
    | Some step =>
        if step <=? 0 then Throw (StepValueError stepStr)
        else
          bounds <- stepInterval min max range ;;
          let '(rangeMin, rangeMax) := bounds in
          Ok (forLoop (iterations rangeMin rangeMax) rangeMin rangeMax step
                (addInWindow min max) values)
    end
  else if includes "-" part && (indexOf "-" part >? 0) then
    match rangeBounds part with
    | (Some start_, Some end_) =>
        if start_ >? end_ then Throw (RangeOrderError start_ end_)
        else Ok (forLoop (iterations start_ end_) start_ end_ 1
                   (addInWindow min max) values)
    | _ => Throw (RangeParseError part)
    end
  else if String.eqb part "*" then
    Ok (forLoop (iterations min max) min max 1 NumberSet.add values)
  else
    match parseInt part with
    | None => Throw (ValueParseError part)
    | Some value =>
        if (value >=? min) && (value <=? max) then Ok (NumberSet.add value values)
        else Throw (ValueBoundsError value min max)
    end.

(** [for (const part of parts) ...]: the parts in order, the first error
    ending the run. *)
Fixpoint processParts (min max : Z) (values : NumberSet.t)
    (parts : list string) : result NumberSet.t :=
  match parts with
  | [] => Ok values
  | part :: rest =>
      values' <- processPart min max values part ;;
      processParts min max values' rest
  end.

Definition parseField (expression : string) (min max : Z) : result (list Z) :=
  values <- processParts min max NumberSet.empty (split "," expression) ;;
  Ok (sortNumeric values).

(** ** parseCronExpression *)

Record FieldConfig : Type := mkFieldConfig {
  name : string;
  fmin : Z;
  fmax : Z
}.

Definition FIELD_CONFIGS : list FieldConfig :=
  [ mkFieldConfig "minute" 0 59;
    mkFieldConfig "hour" 0 23;
    mkFieldConfig "day of month" 1 31;
    mkFieldConfig "month" 1 12;
    mkFieldConfig "day of week" 0 6 ].

Definition newline : string := String (ascii_of_nat 10) EmptyString.

Section Composer.

(** The field expander that the composer calls; [parseCronExpression] below
    is the composer with [parseField] for it. *)
Variable expand : string -> Z -> Z -> result (list Z).

(** [timeFields.forEach((field, index) => ...)] over the fields paired with
    [FIELD_CONFIGS[index]]: each field adds its line to [output]. *)
Fixpoint formatFields (fields : list (string * FieldConfig))
    (output : list string) : result (list string) :=
  match fields with
  | [] => Ok output
  | (field, config) :: rest =>
      values <- expand field (fmin config) (fmax config) ;;
      let fieldName := padEnd 14 (name config) in
      let valueString := join " " (map toString values) in
      formatFields rest (output ++ [fieldName ++ valueString])
  end.

Definition parseCronExpressionWith (cronExpression : string) : result string :=
  let parts := splitWhitespace (trim cronExpression) in
  if (List.length parts <? 6)%nat then Throw (FieldCountError (List.length parts))
  else
    let timeFields := firstn 5 parts in
    let command := join " " (skipn 5 parts) in
    output <- formatFields (combine timeFields FIELD_CONFIGS) [] ;;
    let commandLine := padEnd 14 "command" ++ command in
    Ok (join newline (output ++ [commandLine])).

End Composer.

Definition parseCronExpression (cronExpression : string) : result string :=
  parseCronExpressionWith parseField cronExpression.


(** ** The forms of a sub-expression

    The branch conditions of the loop body, in the order the source tests
    them. *)

Definition isStepForm (part : string) : bool := includes "/" part.

Definition isRangeForm (part : string) : bool :=
  negb (includes "/" part) && (includes "-" part && (indexOf "-" part >? 0)).

Definition isWildcard (part : string) : bool :=
  negb (isStepForm part) && negb (isRangeForm part) && String.eqb part "*".

Definition isSingleValue (part : string) : bool :=
  negb (isStepForm part) && negb (isRangeForm part)
  && negb (String.eqb part "*").

(** The text of a step expression after its first slash, the one parsed as
    the step. *)
Definition stepStrOf (part : string) : string := snd (stepPieces part).

Definition rangeOf (part : string) : string := fst (stepPieces part).

(** The sub-expression starts with decimal digits, after at most one sign. *)
Definition startsWithDigit (s : string) : bool :=
  match s with
  | String a _ => isDigit a
  | EmptyString => false
  end.

Definition leadingDigits (s : string) : bool :=
  match s with
  | String "-"%char s' => startsWithDigit s'
  | String "+"%char s' => startsWithDigit s'
  | _ => startsWithDigit s
  end.

Fixpoint allDigits (s : string) : bool :=
  match s with
  | EmptyString => true
  | String a s' => isDigit a && allDigits s'
  end.

(** The integers that a walk from [start] up to [stop] in steps of [step]
    visits inside the window [[min, max]]. *)
Definition visited (start stop step min max x : Z) : Prop :=
  (exists k, 0 <= k /\ x = start + k * step) /\ x <= stop /\ min <= x <= max.

(** Every collected value lies in the window of the field. *)
Definition inWindow (min max : Z) (values : list Z) : Prop :=
  Forall (fun x => min <= x <= max) values.

(** The sub-expression [part] throws [e]: whatever has been collected before
    it, and so also when it is the whole expression. *)
Definition throwsAt (part : string) (min max : Z) (e : ParseError) : Prop :=
  (forall values, processPart min max values part = Throw e)
  /\ (includes "," part = false -> parseField part min max = Throw e).

(** The sub-expression [part] raises no error and adds exactly the integers
    satisfying [P]: to whatever has been collected before it, and, when it is
    the whole expression, as the returned values. *)
Definition emits (part : string) (min max : Z) (P : Z -> Prop) : Prop :=
  (forall values, exists values',
      processPart min max values part = Ok values'
      /\ forall x, In x values' <-> In x values \/ P x)
  /\ (includes "," part = false ->
      exists result_, parseField part min max = Ok result_
                      /\ forall x, In x result_ <-> P x).

(** The step text of a step expression is rejected by the check of line 62:
    it is not a number, or not a positive one. *)
Definition badStep (stepStr : string) : Prop :=
  parseInt stepStr = None \/ exists n, parseInt stepStr = Some n /\ n <= 0.

(** ** main *)

(** A line written by [console.log] (standard output) or by [console.error]
    (standard error). *)
Inductive ConsoleLine : Type :=
| ConsoleLog (text : string)
| ConsoleError (text : string).

Definition doubleQuote : string := String (ascii_of_nat 34) EmptyString.

(** [main], as a function of [args = process.argv.slice(2)]: the lines
    written, in order, and the status passed to [process.exit].
    [console.error(a, b)] writes its two arguments separated by a space. *)
Definition main (args : list string) : list ConsoleLine * Z :=
  match args with
  | [] =>
      ([ ConsoleError "Error: No cron expression provided";
         ConsoleError ("Usage: cron-parser " ++ doubleQuote
                         ++ "<minute> <hour> <day> <month> <day-of-week> <command>"
                         ++ doubleQuote);
         ConsoleError ("Example: cron-parser " ++ doubleQuote
                         ++ "*/15 0 1,15 * 1-5 /usr/bin/find" ++ doubleQuote) ],
       1)
  | _ =>
      let cronExpression := join " " args in
      match parseCronExpression cronExpression with
      | Ok result_ => ([ConsoleLog result_], 0)
      | Throw error =>
          ([ConsoleError ("Error parsing cron expression:" ++ " " ++ message error)],
           1)
      end
  end.

(** The integers that a JavaScript number holds exactly and writes out in
    plain decimal digits ([Number.isSafeInteger]). *)
Definition safeInteger (n : Z) : Prop := - 2 ^ 53 < n < 2 ^ 53.

(** ** Notions used to describe texts *)

Fixpoint hasWhiteSpace (s : string) : bool :=
  match s with
  | EmptyString => false
  | String a s' => isWhiteSpace a || hasWhiteSpace s'
  end.

Fixpoint allWhiteSpace (s : string) : bool :=
  match s with
  | EmptyString => true
  | String a s' => isWhiteSpace a && allWhiteSpace s'
  end.

(** A token: a non-empty text without white space. *)
Definition isToken (s : string) : Prop :=
  s <> EmptyString /\ hasWhiteSpace s = false.

(** A line of the report for the field [config] with the values [values]. *)
Definition fieldLine (config : FieldConfig) (values : list Z) : string :=
  padEnd 14 (name config) ++ join " " (map toString values).

(** The field at position [i] of the tokens, with its configuration, gives
    the outcome [r]. *)
Definition fieldOutcome (tokens : list string) (i : nat)
    (r : result (list Z)) : Prop :=
  exists field config,
    nth_error tokens i = Some field
    /\ nth_error FIELD_CONFIGS i = Some config
    /\ parseField field (fmin config) (fmax config) = r.

(** ** Notions used to describe whole expressions *)

(** The part succeeds when processed on its own. *)
Definition partSucceeds (min max : Z) (part : string) : Prop :=
  exists values, processPart min max NumberSet.empty part = Ok values.

(** The integer [x] is among the values that one of the parts gives on its
    own. *)
Definition denotes (min max : Z) (parts : list string) (x : Z) : Prop :=
  exists part values,
    In part parts
    /\ processPart min max NumberSet.empty part = Ok values
    /\ In x values.

(** [lo, lo+1, ..., hi], empty when [hi < lo]. *)
Definition ascending (lo hi : Z) : list Z :=
  map (fun k => lo + Z.of_nat k) (seq 0 (Z.to_nat (hi - lo + 1))).

(** The members of [s] followed by those of [extra] not yet present: what
    adding the members of [extra] one by one gives. *)
Definition addAll (extra : list Z) (s : NumberSet.t) : NumberSet.t :=
  fold_left (fun acc x => NumberSet.add x acc) extra s.

(** The number that the decimal digits [d] spell after the digits whose
    value is [acc]. *)
Fixpoint uintValue (acc : Z) (d : Decimal.uint) : Z :=
  match d with
  | Decimal.Nil => acc
  | Decimal.D0 l => uintValue (10 * acc + 0) l
  | Decimal.D1 l => uintValue (10 * acc + 1) l
  | Decimal.D2 l => uintValue (10 * acc + 2) l
  | Decimal.D3 l => uintValue (10 * acc + 3) l
  | Decimal.D4 l => uintValue (10 * acc + 4) l
  | Decimal.D5 l => uintValue (10 * acc + 5) l
  | Decimal.D6 l => uintValue (10 * acc + 6) l
  | Decimal.D7 l => uintValue (10 * acc + 7) l
  | Decimal.D8 l => uintValue (10 * acc + 8) l
  | Decimal.D9 l => uintValue (10 * acc + 9) l
  end.

(** ** Facts on the set of values *)

Lemma add_In : forall x y values,
  In x (NumberSet.add y values) <-> x = y \/ In x values.
Proof.
  intros x y values; induction values as [|z rest IH]; simpl.
  - intuition.
  - destruct (Z.eqb_spec y z) as [->|Hne]; simpl; intuition.
Qed.

Lemma add_NoDup : forall y values, NoDup values -> NoDup (NumberSet.add y values).
Proof.
  intros y values; induction values as [|z rest IH]; simpl; intros Hnd.
  - constructor; [intros [] | constructor].
  - destruct (Z.eqb_spec y z) as [->|Hne]; [assumption|].
    inversion Hnd as [|? ? Hnotin Hrest]; subst.
    constructor; [|auto].
    rewrite add_In; intros [Heq | Hin]; [congruence | contradiction].
Qed.

Lemma addInWindow_In : forall min max i x values,
  In x (addInWindow min max i values)
  <-> In x values \/ (x = i /\ min <= i <= max).
Proof.
  intros min max i x values; unfold addInWindow.
  destruct (Z.geb_spec i min), (Z.leb_spec i max); simpl;
    rewrite ?add_In; intuition lia.
Qed.

(** ** Facts on the loop *)

Section Loop.

Variables (stop step : Z) (body : Z -> NumberSet.t -> NumberSet.t).

(** A property of the set that every iteration keeps, given a property of
    the counter that the increment keeps, holds when the loop ends. *)
Lemma forLoop_preserves (I : Z -> Prop) (Q : NumberSet.t -> Prop) :
  (forall j, I j -> j <= stop -> I (j + step)) ->
  (forall j values, I j -> j <= stop -> Q values -> Q (body j values)) ->
  forall fuel i values, I i -> Q values ->
    Q (forLoop fuel i stop step body values).
Proof.
  intros Hinc Hbody fuel; induction fuel as [|fuel IH]; simpl; intros i values Hi Hq.
  - assumption.
  - destruct (Z.leb_spec i stop); [|assumption].
    apply IH; auto.
Qed.

Variable keep : Z -> Prop.
Hypothesis body_In : forall i x values,
  In x (body i values) <-> In x values \/ (x = i /\ keep i).
Hypothesis step_pos : 0 < step.

(** With the fuel that [iterations] gives, or more, the loop visits every
    counter value up to [stop]: fuel never cuts it short. *)
Lemma forLoop_In : forall fuel i values x,
  (iterations i stop <= fuel)%nat ->
  (In x (forLoop fuel i stop step body values)
   <-> In x values
       \/ ((exists k, 0 <= k /\ x = i + k * step) /\ x <= stop /\ keep x)).
Proof.
  unfold iterations.
  intros fuel; induction fuel as [|fuel IH]; simpl; intros i values x Hfuel.
  - split; [auto|]. intros [Hin | [[k [Hk Hx]] [Hstop _]]]; [assumption|].
    exfalso. nia.
  - destruct (Z.leb_spec i stop) as [Hle | Hgt].
    + rewrite IH by lia. rewrite body_In. split.
      * intros [[Hin | [-> Hkeep]] | [[k [Hk Hx]] [Hstop Hkeep]]].
        -- auto.
        -- right; split; [exists 0; lia | auto].
        -- right; split; [exists (k + 1); nia | auto].
      * intros [Hin | [[k [Hk Hx]] [Hstop Hkeep]]]; [auto|].
        destruct (Z.eq_dec k 0) as [-> | Hk0].
        -- left; right. split; [lia|].
           replace i with x by lia. assumption.
        -- right; split; [exists (k - 1); nia | auto].
    + split; [auto|]. intros [Hin | [[k [Hk Hx]] [Hstop _]]]; [assumption|].
      exfalso. nia.
Qed.

End Loop.

(** ** Facts on sorting *)

Lemma sortNumeric_In : forall values x, In x (sortNumeric values) <-> In x values.
Proof.
  intros values x; unfold sortNumeric; split; intros Hin.
  - apply Permutation_in with (l := ZSort.sort values);
      [apply Permutation_sym, ZSort.Permuted_sort | assumption].
  - apply Permutation_in with (l := values);
      [apply ZSort.Permuted_sort | assumption].
Qed.

Lemma sortNumeric_NoDup : forall values, NoDup values -> NoDup (sortNumeric values).
Proof.
  intros values Hnd; unfold sortNumeric.
  apply Permutation_NoDup with (l := values);
    [apply ZSort.Permuted_sort | assumption].
Qed.

Lemma sorted_le_NoDup_lt : forall l,
  StronglySorted (fun x y => is_true (x <=? y)) l -> NoDup l ->
  StronglySorted Z.lt l.
Proof.
  intros l Hs; induction Hs as [|a l Hs IH Hall]; intros Hnd.
  - constructor.
  - inversion Hnd as [|? ? Hnotin Hrest]; subst.
    constructor; [auto|].
    rewrite Forall_forall in Hall |- *; intros y Hy.
    specialize (Hall y Hy). apply Z.leb_le in Hall.
    assert (a <> y) by (intros ->; contradiction). lia.
Qed.

Lemma sortNumeric_increasing : forall values,
  NoDup values -> StronglySorted Z.lt (sortNumeric values).
Proof.
  intros values Hnd. apply sorted_le_NoDup_lt.
  - unfold sortNumeric. apply ZSort.StronglySorted_sort.
    intros x y z Hxy Hyz. unfold is_true in *.
    apply Z.leb_le in Hxy, Hyz. apply Z.leb_le. lia.
  - apply sortNumeric_NoDup; assumption.
Qed.

(** ** Facts on splitting *)

Lemma split_nonempty : forall c s, split c s <> [].
Proof.
  intros c s; destruct s as [|a s]; simpl; [discriminate|].
  destruct (Ascii.eqb a c); [discriminate|].
  destruct (split c s); discriminate.
Qed.

Lemma split_without_separator : forall c s,
  includes c s = false -> split c s = [s].
Proof.
  intros c s; induction s as [|a s IH]; simpl; intros H; [reflexivity|].
  destruct (Ascii.eqb a c); [discriminate|].
  rewrite IH by assumption. reflexivity.
Qed.

(** An expression without a comma is a single part. *)
Lemma parseField_single : forall part min max,
  includes "," part = false ->
  parseField part min max
  = (values <- processPart min max NumberSet.empty part ;; Ok (sortNumeric values)).
Proof.
  intros part min max H. unfold parseField.
  rewrite split_without_separator by assumption. simpl.
  destruct (processPart min max NumberSet.empty part); reflexivity.
Qed.

Lemma parseField_single_Throw : forall part min max e,
  includes "," part = false ->
  processPart min max NumberSet.empty part = Throw e ->
  parseField part min max = Throw e.
Proof.
  intros part min max e Hc H. rewrite parseField_single, H by assumption.
  reflexivity.
Qed.

Lemma parseField_single_Ok : forall part min max values,
  includes "," part = false ->
  processPart min max NumberSet.empty part = Ok values ->
  parseField part min max = Ok (sortNumeric values).
Proof.
  intros part min max e Hc H. rewrite parseField_single, H by assumption.
  reflexivity.
Qed.

(** ** The invariant of the value set *)

Lemma add_inWindow : forall min max x values,
  min <= x <= max -> inWindow min max values ->
  inWindow min max (NumberSet.add x values).
Proof.
  unfold inWindow; intros min max x values Hx H.
  rewrite Forall_forall in H |- *; intros y Hy.
  apply add_In in Hy; destruct Hy as [-> | Hy]; auto.
Qed.

Lemma addInWindow_inWindow : forall min max i values,
  inWindow min max values -> inWindow min max (addInWindow min max i values).
Proof.
  intros min max i values H; unfold addInWindow.
  destruct (Z.geb_spec i min), (Z.leb_spec i max); simpl; auto.
  apply add_inWindow; [lia | assumption].
Qed.

Lemma addInWindow_NoDup : forall min max i values,
  NoDup values -> NoDup (addInWindow min max i values).
Proof.
  intros min max i values H; unfold addInWindow.
  destruct ((i >=? min) && (i <=? max)); [apply add_NoDup|]; assumption.
Qed.

Lemma windowLoop_invariant : forall min max fuel i stop step values,
  NoDup values /\ inWindow min max values ->
  NoDup (forLoop fuel i stop step (addInWindow min max) values)
  /\ inWindow min max (forLoop fuel i stop step (addInWindow min max) values).
Proof.
  intros min max fuel i stop step values H.
  apply (forLoop_preserves stop step (addInWindow min max) (fun _ => True)
           (fun vs => NoDup vs /\ inWindow min max vs)); auto.
  intros j vs _ _ [Hnd Hw]; split;
    [apply addInWindow_NoDup | apply addInWindow_inWindow]; assumption.
Qed.

Lemma wildcardLoop_invariant : forall min max fuel values,
  NoDup values /\ inWindow min max values ->
  NoDup (forLoop fuel min max 1 NumberSet.add values)
  /\ inWindow min max (forLoop fuel min max 1 NumberSet.add values).
Proof.
  intros min max fuel values H.
  apply (forLoop_preserves max 1 NumberSet.add (fun j => min <= j)
           (fun vs => NoDup vs /\ inWindow min max vs)); auto; try lia.
  intros j vs Hj Hle [Hnd Hw]; split;
    [apply add_NoDup | apply add_inWindow]; auto.
Qed.

Lemma processPart_invariant : forall min max values part values',
  processPart min max values part = Ok values' ->
  NoDup values /\ inWindow min max values ->
  NoDup values' /\ inWindow min max values'.
Proof.
  intros min max values part values' Hrun Hinv. unfold processPart in Hrun.
  destruct (includes "/" part).
  - destruct (stepPieces part) as [range stepStr].
    destruct (parseInt stepStr) as [step|]; [|discriminate].
    destruct (step <=? 0); [discriminate|].
    destruct (stepInterval min max range) as [[rangeMin rangeMax]|]; [|discriminate].
    simpl in Hrun. injection Hrun as <-. apply windowLoop_invariant; assumption.
  - destruct (includes "-" part && (indexOf "-" part >? 0)).
    + destruct (rangeBounds part) as [[start_|] [end_|]]; try discriminate.
      destruct (start_ >? end_); [discriminate|].
      injection Hrun as <-. apply windowLoop_invariant; assumption.
    + destruct (String.eqb part "*").
      * injection Hrun as <-. apply wildcardLoop_invariant; assumption.
      * destruct (parseInt part) as [value|]; [|discriminate].
        destruct (Z.geb_spec value min), (Z.leb_spec value max);
          simpl in Hrun; try discriminate.
        injection Hrun as <-. destruct Hinv as [Hnd Hw]. split;
          [apply add_NoDup | apply add_inWindow]; auto; lia.
Qed.

Lemma processParts_invariant : forall min max parts values values',
  processParts min max values parts = Ok values' ->
  NoDup values /\ inWindow min max values ->
  NoDup values' /\ inWindow min max values'.
Proof.
  intros min max parts; induction parts as [|part rest IH]; simpl;
    intros values values' Hrun Hinv.
  - injection Hrun as <-; assumption.
  - destruct (processPart min max values part) as [mid|] eqn:Hpart;
      simpl in Hrun; [|discriminate].
    apply (IH mid); [assumption|].
    apply (processPart_invariant min max values part); assumption.
Qed.

(** C1. Whenever [parseField] returns, for any expression and any bounds,
    every returned value lies within [[min, max]] and the returned sequence
    is strictly increasing, hence without duplicates. *)
Theorem parseField_within_bounds_increasing :
  forall expression min max result_,
    parseField expression min max = Ok result_ ->
    Forall (fun x => min <= x <= max) result_
    /\ StronglySorted Z.lt result_
    /\ NoDup result_.
Proof.
  intros expression min max result_ Hrun. unfold parseField in Hrun.
  destruct (processParts min max NumberSet.empty (split "," expression))
    as [values|] eqn:Hparts; simpl in Hrun; [|discriminate].
  injection Hrun as <-.
  destruct (processParts_invariant _ _ _ _ _ Hparts) as [Hnd Hw].
  { split; [constructor | constructor]. }
  split; [|split].
  - unfold inWindow in Hw. rewrite Forall_forall in Hw |- *.
    intros x Hx. apply Hw. apply sortNumeric_In; assumption.
  - apply sortNumeric_increasing; assumption.
  - apply sortNumeric_NoDup; assumption.
Qed.

Lemma parseField_within_bounds_increasing_witness :
  parseField "1-5,10,*/20" 0 59 = Ok [0; 1; 2; 3; 4; 5; 10; 20; 40]
  /\ Forall (fun x => 0 <= x <= 59) [0; 1; 2; 3; 4; 5; 10; 20; 40]
  /\ StronglySorted Z.lt [0; 1; 2; 3; 4; 5; 10; 20; 40]
  /\ NoDup [0; 1; 2; 3; 4; 5; 10; 20; 40].
Proof.
  split; [reflexivity|].
  apply (parseField_within_bounds_increasing "1-5,10,*/20" 0 59).
  reflexivity.
Defined.

(** C2. On the expression of the requirements, [parseCronExpression] returns
    the six-line report: the five field lines and the command line, joined by
    newlines, every label padded to a column of 14 characters. *)
Theorem parseCronExpression_requirements_example :
  parseCronExpression "*/15 0 1,15 * 1-5 /usr/bin/find"
  = Ok (join newline
          [ "minute        0 15 30 45";
            "hour          0";
            "day of month  1 15";
            "month         1 2 3 4 5 6 7 8 9 10 11 12";
            "day of week   1 2 3 4 5";
            "command       /usr/bin/find" ])
  /\ [ "minute        0 15 30 45";
       "hour          0";
       "day of month  1 15";
       "month         1 2 3 4 5 6 7 8 9 10 11 12";
       "day of week   1 2 3 4 5";
       "command       /usr/bin/find" ]
     = [ padEnd 14 "minute" ++ "0 15 30 45";
         padEnd 14 "hour" ++ "0";
         padEnd 14 "day of month" ++ "1 15";
         padEnd 14 "month" ++ "1 2 3 4 5 6 7 8 9 10 11 12";
         padEnd 14 "day of week" ++ "1 2 3 4 5";
         padEnd 14 "command" ++ "/usr/bin/find" ]
  /\ Forall (fun label => String.length (padEnd 14 label) = 14%nat)
       (map name FIELD_CONFIGS ++ ["command"]).
Proof.
  split; [vm_compute; reflexivity|].
  split; [vm_compute; reflexivity|].
  repeat constructor.
Qed.

(** C8. Whatever the field expander, an input whose trimmed,
    white-space-split form has fewer than six tokens is rejected with the
    malformed-expression error, whose message carries the number of tokens
    seen; the expander has no part in the outcome. The inputs ["* * * *"] and
    [""] are rejected so, with four and one token seen. *)
Theorem parseCronExpression_too_few_tokens :
  (forall (expand : string -> Z -> Z -> result (list Z)) cronExpression,
     let count := List.length (splitWhitespace (trim cronExpression)) in
     (count < 6)%nat ->
     parseCronExpressionWith expand cronExpression = Throw (FieldCountError count)
     /\ parseCronExpression cronExpression = Throw (FieldCountError count)
     /\ kind (FieldCountError count) = MalformedExpression
     /\ message (FieldCountError count)
        = "Invalid cron expression. Expected at least 6 fields, got "
            ++ toString (Z.of_nat count) ++ ". "
            ++ "Format: <minute> <hour> <day of month> <month> <day of week> <command>")
  /\ parseCronExpression "* * * *" = Throw (FieldCountError 4)
  /\ parseCronExpression "" = Throw (FieldCountError 1)
  /\ message (FieldCountError 4)
     = "Invalid cron expression. Expected at least 6 fields, got 4. Format: <minute> <hour> <day of month> <month> <day of week> <command>".
Proof.
  split; [|repeat split; reflexivity].
  intros expand cronExpression count Hcount.
  assert (Hwith : forall f, parseCronExpressionWith f cronExpression
                            = Throw (FieldCountError count)).
  { intros f. unfold parseCronExpressionWith. fold count.
    destruct (Nat.ltb_spec count 6) as [_ | Hge]; [reflexivity | lia]. }
  split; [apply Hwith|].
  split; [apply Hwith|].
  split; reflexivity.
Qed.

Lemma parseCronExpression_too_few_tokens_witness :
  parseCronExpressionWith (fun _ _ _ => Ok [7]) "a b  c" = Throw (FieldCountError 3)
  /\ parseCronExpression "a b  c" = Throw (FieldCountError 3).
Proof.
  destruct (proj1 parseCronExpression_too_few_tokens (fun _ _ _ => Ok [7]) "a b  c")
    as [Hwith [Hreal _]].
  - vm_compute. lia.
  - split; [exact Hwith | exact Hreal].
Defined.

(** ** The branches of the loop body *)

Lemma processPart_step : forall min max values part,
  isStepForm part = true ->
  processPart min max values part
  = match parseInt (stepStrOf part) with
    | None => Throw (StepValueError (stepStrOf part))
    | Some step =>
        if step <=? 0 then Throw (StepValueError (stepStrOf part))
        else
          bounds <- stepInterval min max (rangeOf part) ;;
          Ok (forLoop (iterations (fst bounds) (snd bounds)) (fst bounds)
                (snd bounds) step (addInWindow min max) values)
    end.
Proof.
  intros min max values part Hform. unfold isStepForm in Hform.
  unfold processPart, stepStrOf, rangeOf. rewrite Hform.
  destruct (stepPieces part) as [range stepStr]; simpl.
  destruct (parseInt stepStr) as [step|]; [|reflexivity].
  destruct (step <=? 0); [reflexivity|].
  destruct (stepInterval min max range) as [[lo hi]|]; reflexivity.
Qed.

Lemma processPart_range : forall min max values part,
  isRangeForm part = true ->
  processPart min max values part
  = match rangeBounds part with
    | (Some start_, Some end_) =>
        if start_ >? end_ then Throw (RangeOrderError start_ end_)
        else Ok (forLoop (iterations start_ end_) start_ end_ 1
                   (addInWindow min max) values)
    | _ => Throw (RangeParseError part)
    end.
Proof.
  intros min max values part Hform. unfold isRangeForm in Hform.
  apply andb_prop in Hform; destruct Hform as [Hslash Hhyphen].
  apply negb_true_iff in Hslash.
  unfold processPart. rewrite Hslash, Hhyphen. reflexivity.
Qed.

Lemma processPart_single : forall min max values part,
  isSingleValue part = true ->
  processPart min max values part
  = match parseInt part with
    | None => Throw (ValueParseError part)
    | Some value =>
        if (value >=? min) && (value <=? max) then Ok (NumberSet.add value values)
        else Throw (ValueBoundsError value min max)
    end.
Proof.
  intros min max values part Hform. unfold isSingleValue in Hform.
  apply andb_prop in Hform; destruct Hform as [Hform Hstar].
  apply andb_prop in Hform; destruct Hform as [Hslash Hrange].
  unfold isStepForm in Hslash. unfold isRangeForm in Hrange.
  apply negb_true_iff in Hslash, Hrange, Hstar.
  rewrite Hslash in Hrange; simpl in Hrange.
  unfold processPart. rewrite Hslash, Hrange, Hstar. reflexivity.
Qed.

Lemma throwsAt_intro : forall part min max e,
  (forall values, processPart min max values part = Throw e) ->
  throwsAt part min max e.
Proof.
  intros part min max e H; split; [assumption|].
  intros Hc. apply parseField_single_Throw; [assumption | apply H].
Qed.

Lemma emits_intro : forall part min max (P : Z -> Prop),
  (forall values, exists values',
      processPart min max values part = Ok values'
      /\ forall x, In x values' <-> In x values \/ P x) ->
  emits part min max P.
Proof.
  intros part min max P H; split; [assumption|].
  intros Hc. destruct (H NumberSet.empty) as [values' [Hrun Hin]].
  exists (sortNumeric values'); split.
  - apply parseField_single_Ok; assumption.
  - intros x. rewrite sortNumeric_In, Hin. simpl. intuition.
Qed.

Lemma forLoop_past_stop : forall fuel i stop step body values,
  stop < i -> forLoop fuel i stop step body values = values.
Proof.
  intros [|fuel] i stop step body values H; simpl; [reflexivity|].
  destruct (Z.leb_spec i stop); [lia | reflexivity].
Qed.

(** The window loop of the step and range forms adds the visited integers. *)
Lemma windowLoop_In : forall min max start stop step values x,
  0 < step ->
  In x (forLoop (iterations start stop) start stop step (addInWindow min max) values)
  <-> In x values \/ visited start stop step min max x.
Proof.
  intros min max start stop step values x Hstep. unfold visited.
  apply (forLoop_In stop step (addInWindow min max) (fun j => min <= j <= max)).
  - intros i y vs. apply addInWindow_In.
  - assumption.
  - apply Nat.le_refl.
Qed.

Lemma stepInterval_Throw : forall min max range e,
  stepInterval min max range = Throw e ->
  e = StepRangeError range \/ e = StepStartError range.
Proof.
  intros min max range e. unfold stepInterval.
  destruct (String.eqb range "*"); [discriminate|].
  destruct (includes "-" range).
  - destruct (rangeBounds range) as [[start_|] [end_|]];
      intros H; try discriminate; injection H as <-; auto.
  - destruct (parseInt range); intros H; [discriminate|].
    injection H as <-; auto.
Qed.

(** ** Facts on splitting at a known separator *)

Lemma split_at_first : forall c a b,
  includes c a = false -> split c (a ++ String c b) = a :: split c b.
Proof.
  intros c a b; induction a as [|x a IH]; simpl; intros H.
  - rewrite Ascii.eqb_refl. reflexivity.
  - destruct (Ascii.eqb x c); [discriminate|].
    rewrite IH by assumption. reflexivity.
Qed.

(** The bounds of the text [start-end] are the numbers that [start] and [end_]
    parse to. *)
Lemma rangeBounds_text : forall start_ end_,
  includes "-" start_ = false -> includes "-" end_ = false ->
  rangeBounds (start_ ++ "-" ++ end_) = (parseInt start_, parseInt end_).
Proof.
  intros a b Ha Hb. unfold rangeBounds. simpl.
  rewrite split_at_first by assumption.
  rewrite split_without_separator by assumption. reflexivity.
Qed.

(** The pieces of the text [range/stepStr]. *)
Lemma stepPieces_text : forall range stepStr,
  includes "/" range = false -> includes "/" stepStr = false ->
  stepPieces (range ++ "/" ++ stepStr) = (range, stepStr).
Proof.
  intros a b Ha Hb. unfold stepPieces. simpl.
  rewrite split_at_first by assumption.
  rewrite split_without_separator by assumption. reflexivity.
Qed.

(** ** Range and step forms *)

Lemma range_form_emits : forall part min max start_ end_,
  isRangeForm part = true ->
  rangeBounds part = (Some start_, Some end_) ->
  start_ <= end_ ->
  emits part min max (fun x => start_ <= x <= end_ /\ min <= x <= max).
Proof.
  intros part min max start_ end_ Hform Hbounds Hle.
  apply emits_intro; intros values.
  rewrite processPart_range, Hbounds by assumption.
  destruct (Z.gtb_spec start_ end_); [lia|].
  eexists; split; [reflexivity|].
  intros x. rewrite windowLoop_In by lia. unfold visited.
  split; (intros [Hin | Hv]; [left; assumption | right]).
  - destruct Hv as [[k [Hk Hx]] [Hstop Hw]]. lia.
  - destruct Hv as [[Hlo Hhi] Hw].
    split; [exists (x - start_); lia | auto].
Qed.

Lemma step_form_emits : forall part min max step lo hi,
  isStepForm part = true ->
  parseInt (stepStrOf part) = Some step ->
  0 < step ->
  stepInterval min max (rangeOf part) = Ok (lo, hi) ->
  emits part min max (visited lo hi step min max).
Proof.
  intros part min max step lo hi Hform Hstep Hpos Hint.
  apply emits_intro; intros values.
  rewrite processPart_step, Hstep, Hint by assumption.
  destruct (Z.leb_spec step 0); [lia|]. simpl.
  eexists; split; [reflexivity|].
  intros x. apply windowLoop_In; assumption.
Qed.

Lemma single_value_out_of_range : forall part min max value,
  isSingleValue part = true ->
  parseInt part = Some value ->
  value < min \/ max < value ->
  throwsAt part min max (ValueBoundsError value min max).
Proof.
  intros part min max value Hform Hparse Hout.
  apply throwsAt_intro; intros values.
  rewrite processPart_single, Hparse by assumption.
  destruct (Z.geb_spec value min), (Z.leb_spec value max); simpl;
    solve [reflexivity | lia].
Qed.

(** The wildcard adds the whole window. *)
Lemma wildcard_emits : forall min max,
  emits "*" min max (fun x => min <= x <= max).
Proof.
  intros min max. apply emits_intro; intros values.
  eexists; split; [reflexivity|].
  intros x.
  rewrite (forLoop_In max 1 NumberSet.add (fun _ => True));
    [| intros i y vs; rewrite add_In; tauto | lia | apply Nat.le_refl].
  split; (intros [Hin | Hv]; [left; assumption | right]).
  - destruct Hv as [[k [Hk Hx]] [Hstop _]]. lia.
  - split; [exists (x - min); lia | split; [lia | exact I]].
Qed.

(** C3. Values outside the window are treated differently by form. A range
    [start-end] and a step expression, with bounds and step that a number
    holds exactly, raise no error for them: they add
    exactly the integers they denote that lie in [[min, max]], so
    ["50-70"] in [[0, 59]] gives 50..59. A single value outside the window
    is rejected with the out-of-range error, whose message holds the value
    and the bounds, so ["60"] in [[0, 59]] fails. *)
Theorem out_of_window_asymmetry :
  (forall part min max start_ end_,
     isRangeForm part = true ->
     rangeBounds part = (Some start_, Some end_) ->
     safeInteger start_ -> safeInteger end_ ->
     start_ <= end_ ->
     emits part min max (fun x => start_ <= x <= end_ /\ min <= x <= max))
  /\ (forall part min max step lo hi,
        isStepForm part = true ->
        parseInt (stepStrOf part) = Some step ->
        0 < step -> safeInteger step ->
        stepInterval min max (rangeOf part) = Ok (lo, hi) ->
        safeInteger lo -> safeInteger hi ->
        emits part min max (visited lo hi step min max))
  /\ (forall part min max value,
        isSingleValue part = true ->
        parseInt part = Some value ->
        value < min \/ max < value ->
        throwsAt part min max (ValueBoundsError value min max)
        /\ kind (ValueBoundsError value min max) = OutOfRange
        /\ message (ValueBoundsError value min max)
           = "Value " ++ toString value ++ " out of range ["
               ++ toString min ++ "-" ++ toString max ++ "]")
  /\ parseField "50-70" 0 59 = Ok [50; 51; 52; 53; 54; 55; 56; 57; 58; 59]
  /\ parseField "60" 0 59 = Throw (ValueBoundsError 60 0 59)
  /\ message (ValueBoundsError 60 0 59) = "Value 60 out of range [0-59]".
Proof.
  split.
  { intros part min max start_ end_ Hform Hb _ _ Hle.
    apply range_form_emits; assumption. }
  split.
  { intros part min max step lo hi Hform Hstep Hpos _ Hint _ _.
    apply (step_form_emits part min max step lo hi); assumption. }
  split; [|repeat split; reflexivity].
  intros part min max value Hform Hparse Hout.
  split; [apply single_value_out_of_range; assumption|].
  split; reflexivity.
Qed.

Lemma out_of_window_asymmetry_witness :
  emits "50-70" 0 59 (fun x => 50 <= x <= 70 /\ 0 <= x <= 59)
  /\ emits "55-70/5" 0 59 (visited 55 70 5 0 59)
  /\ throwsAt "60" 0 59 (ValueBoundsError 60 0 59).
Proof.
  destruct out_of_window_asymmetry as [Hrange [Hstep [Hsingle _]]].
  split; [|split].
  - apply (Hrange "50-70" 0 59 50 70);
      [reflexivity | reflexivity | unfold safeInteger; lia
      | unfold safeInteger; lia | lia].
  - apply (Hstep "55-70/5" 0 59 5 55 70);
      [reflexivity | reflexivity | lia | unfold safeInteger; lia
      | reflexivity | unfold safeInteger; lia | unfold safeInteger; lia].
  - apply (Hsingle "60" 0 59 60); [reflexivity | reflexivity | lia].
Defined.

(** C4. In the range form (no slash, first hyphen past index 0) a bound
    that does not parse gives the invalid-range error, and so do bounds that
    parse with [start > end], then with a message holding both numbers;
    ["5-2"] fails so. *)
Theorem range_form_invalid :
  (forall part min max,
     isRangeForm part = true ->
     fst (rangeBounds part) = None \/ snd (rangeBounds part) = None ->
     throwsAt part min max (RangeParseError part)
     /\ kind (RangeParseError part) = InvalidRange)
  /\ (forall part min max start_ end_,
        isRangeForm part = true ->
        rangeBounds part = (Some start_, Some end_) ->
        start_ > end_ ->
        throwsAt part min max (RangeOrderError start_ end_)
        /\ kind (RangeOrderError start_ end_) = InvalidRange
        /\ message (RangeOrderError start_ end_)
           = "Invalid range: start (" ++ toString start_ ++ ") > end ("
               ++ toString end_ ++ ")")
  /\ parseField "5-2" 0 10 = Throw (RangeOrderError 5 2)
  /\ failsWith (parseField "5-2" 0 10) InvalidRange
  /\ message (RangeOrderError 5 2) = "Invalid range: start (5) > end (2)".
Proof.
  split; [|split].
  - intros part min max Hform Hnone. split; [|reflexivity].
    apply throwsAt_intro; intros values.
    rewrite processPart_range by assumption.
    destruct (rangeBounds part) as [[start_|] [end_|]]; simpl in Hnone;
      try reflexivity.
    destruct Hnone; discriminate.
  - intros part min max start_ end_ Hform Hbounds Hgt.
    split; [|split; reflexivity].
    apply throwsAt_intro; intros values.
    rewrite processPart_range, Hbounds by assumption.
    destruct (Z.gtb_spec start_ end_); [reflexivity | lia].
  - split; [reflexivity|]. split; [|reflexivity].
    exists (RangeOrderError 5 2); split; reflexivity.
Qed.

Lemma range_form_invalid_witness :
  throwsAt "a-b" 0 10 (RangeParseError "a-b")
  /\ throwsAt "5-2" 0 10 (RangeOrderError 5 2).
Proof.
  destruct range_form_invalid as [Hparse [Horder _]].
  split.
  - apply (Hparse "a-b" 0 10); [reflexivity | left; reflexivity].
  - apply (Horder "5-2" 0 10 5 2); [reflexivity | reflexivity | lia].
Defined.

(** C5. In the step form an inverted range is no error: when the step is a
    positive number and the range part [start-end] parses with
    [start > end], the sub-expression succeeds and adds nothing. So
    ["5-2/1"] gives no value, where the plain range ["5-2"] fails. *)
Theorem step_form_inverted_range :
  (forall part min max step start_ end_,
     isStepForm part = true ->
     parseInt (stepStrOf part) = Some step ->
     0 < step ->
     includes "-" (rangeOf part) = true ->
     rangeBounds (rangeOf part) = (Some start_, Some end_) ->
     start_ > end_ ->
     (forall values, processPart min max values part = Ok values)
     /\ (includes "," part = false -> parseField part min max = Ok []))
  /\ parseField "5-2/1" 0 10 = Ok []
  /\ failsWith (parseField "5-2" 0 10) InvalidRange.
Proof.
  split.
  - intros part min max step start_ end_ Hform Hstep Hpos Hhyphen Hbounds Hgt.
    assert (Hrun : forall values, processPart min max values part = Ok values).
    { intros values. rewrite processPart_step, Hstep by assumption.
      destruct (Z.leb_spec step 0); [lia|].
      unfold stepInterval. rewrite Hhyphen, Hbounds.
      destruct (String.eqb_spec (rangeOf part) "*") as [Heq | _].
      - rewrite Heq in Hhyphen. discriminate.
      - simpl. rewrite forLoop_past_stop by lia. reflexivity. }
    split; [exact Hrun|].
    intros Hc. rewrite (parseField_single_Ok part min max NumberSet.empty Hc (Hrun _)).
    reflexivity.
  - split; [reflexivity|].
    exists (RangeOrderError 5 2); split; reflexivity.
Qed.

Lemma step_form_inverted_range_witness :
  (forall values, processPart 0 10 values "5-2/1" = Ok values)
  /\ parseField "5-2/1" 0 10 = Ok [].
Proof.
  destruct (proj1 step_form_inverted_range "5-2/1" 0 10 1 5 2) as [Hpart Hfield];
    try reflexivity; try lia.
  split; [exact Hpart | apply Hfield; reflexivity].
Defined.

(** C6. A step expression (one with a slash) fails with the invalid-step
    error exactly when its step text does not parse as a number or parses to
    a number that is zero or negative; ["*/0"], ["*/-5"] and ["*/abc"] fail
    so. *)
Theorem step_form_invalid_step_iff :
  (forall part min max values,
     isStepForm part = true ->
     (failsWith (processPart min max values part) InvalidStep
      <-> badStep (stepStrOf part)))
  /\ (forall part min max,
        isStepForm part = true ->
        includes "," part = false ->
        (failsWith (parseField part min max) InvalidStep
         <-> badStep (stepStrOf part)))
  /\ parseField "*/0" 0 59 = Throw (StepValueError "0")
  /\ parseField "*/-5" 0 59 = Throw (StepValueError "-5")
  /\ parseField "*/abc" 0 59 = Throw (StepValueError "abc")
  /\ (forall stepStr, kind (StepValueError stepStr) = InvalidStep).
Proof.
  assert (Hpart : forall part min max values,
            isStepForm part = true ->
            (failsWith (processPart min max values part) InvalidStep
             <-> badStep (stepStrOf part))).
  { intros part min max values Hform. unfold failsWith, badStep.
    rewrite processPart_step by assumption.
    destruct (parseInt (stepStrOf part)) as [step|].
    - destruct (Z.leb_spec step 0) as [Hle | Hgt].
      + split; [intros _; right; exists step; auto|].
        intros _. eexists; split; reflexivity.
      + split.
        * intros [e [Hrun Hkind]].
          destruct (stepInterval min max (rangeOf part)) as [bounds|e'] eqn:Hint;
            simpl in Hrun; [discriminate|].
          injection Hrun as <-.
          destruct (stepInterval_Throw _ _ _ _ Hint) as [-> | ->]; discriminate.
        * intros [Hnone | [n [Hsome Hn]]]; [discriminate|].
          injection Hsome as <-. lia.
    - split; [intros _; left; reflexivity|].
      intros _. eexists; split; reflexivity. }
  split; [exact Hpart|].
  split; [|repeat split; reflexivity].
  intros part min max Hform Hc. rewrite <- (Hpart part min max NumberSet.empty Hform).
  rewrite parseField_single by assumption. unfold failsWith.
  destruct (processPart min max NumberSet.empty part) as [values|e]; simpl.
  - split; intros [e [Hrun _]]; discriminate.
  - reflexivity.
Qed.

Lemma step_form_invalid_step_iff_witness :
  failsWith (processPart 0 59 [3] "1-5/x") InvalidStep
  /\ failsWith (parseField "1-5/x" 0 59) InvalidStep.
Proof.
  destruct step_form_invalid_step_iff as [Hpart [Hfield _]].
  split.
  - apply (Hpart "1-5/x" 0 59 [3]); [reflexivity | left; reflexivity].
  - apply (Hfield "1-5/x" 0 59); [reflexivity | reflexivity | left; reflexivity].
Defined.

(** C7. In a step expression [s/n] whose range part [s] is neither the
    wildcard nor holds a hyphen, and whose step [n] is a positive number:
    when [s] parses, the walk starts at [s] and ends at the maximum of the
    field, adding (for [s], [n] and [max] that a number holds exactly)
    [s], [s+n], [s+2n], ... up to [max] that lie in
    [[min, max]], so ["5/10"] in [[0, 59]] gives 5, 15, 25, 35, 45, 55; when
    [s] does not parse, the invalid-value error is thrown. *)
Theorem single_value_with_step :
  (forall part min max step,
     isStepForm part = true ->
     parseInt (stepStrOf part) = Some step ->
     0 < step ->
     rangeOf part <> "*" ->
     includes "-" (rangeOf part) = false ->
     (forall start_,
        parseInt (rangeOf part) = Some start_ ->
        stepInterval min max (rangeOf part) = Ok (start_, max)
        /\ (safeInteger step -> safeInteger start_ -> safeInteger max ->
            emits part min max (visited start_ max step min max)))
     /\ (parseInt (rangeOf part) = None ->
         throwsAt part min max (StepStartError (rangeOf part))
         /\ kind (StepStartError (rangeOf part)) = InvalidValue))
  /\ parseField "5/10" 0 59 = Ok [5; 15; 25; 35; 45; 55]
  /\ parseField "x/10" 0 59 = Throw (StepStartError "x").
Proof.
  split; [|split; reflexivity].
  intros part min max step Hform Hstep Hpos Hstar Hhyphen.
  apply String.eqb_neq in Hstar.
  split.
  - intros start_ Hstart.
    assert (Hint : stepInterval min max (rangeOf part) = Ok (start_, max)).
    { unfold stepInterval. rewrite Hstar, Hhyphen, Hstart. reflexivity. }
    split; [exact Hint|].
    intros _ _ _. apply step_form_emits; assumption.
  - intros Hnone. split; [|reflexivity].
    apply throwsAt_intro; intros values.
    rewrite processPart_step, Hstep by assumption.
    destruct (Z.leb_spec step 0); [lia|].
    unfold stepInterval. rewrite Hstar, Hhyphen, Hnone. reflexivity.
Qed.

Lemma single_value_with_step_witness :
  emits "5/10" 0 59 (visited 5 59 10 0 59)
  /\ throwsAt "x/10" 0 59 (StepStartError "x").
Proof.
  split.
  - destruct (proj1 single_value_with_step "5/10" 0 59 10) as [Hok _];
      try reflexivity; try lia; try discriminate.
    apply (Hok 5); [reflexivity | | |]; unfold safeInteger; lia.
  - destruct (proj1 single_value_with_step "x/10" 0 59 10) as [_ Hbad];
      try reflexivity; try lia; try discriminate.
    apply Hbad. reflexivity.
Defined.

(** ** Facts on parseInt *)

Lemma isDigit_char : forall a,
  isDigit a = true ->
  isWhiteSpace a = false /\ Ascii.eqb a "-" = false
  /\ Ascii.eqb a "+" = false /\ Ascii.eqb a "/" = false.
Proof.
  intros a; destruct a as [[] [] [] [] [] [] [] []]; intros H;
    try discriminate H; repeat split.
Qed.

Lemma isDigit_value : forall a, isDigit a = true -> 0 <= digitValue a <= 9.
Proof.
  intros a; unfold isDigit, digitValue; intros H.
  apply andb_prop in H; destruct H as [Hlo Hhi].
  apply Nat.leb_le in Hlo, Hhi. lia.
Qed.

Lemma parseInt_cons : forall a s,
  isWhiteSpace a = false ->
  parseInt (String a s)
  = if Ascii.eqb a "-" then option_map Z.opp (digits false 0 s)
    else if Ascii.eqb a "+" then digits false 0 s
    else digits false 0 (String a s).
Proof.
  intros a s; destruct a as [[] [] [] [] [] [] [] []]; intros H;
    try discriminate H; reflexivity.
Qed.

Lemma leadingDigits_cons : forall a s,
  leadingDigits (String a s)
  = if Ascii.eqb a "-" then startsWithDigit s
    else if Ascii.eqb a "+" then startsWithDigit s
    else isDigit a.
Proof.
  intros a s; destruct a as [[] [] [] [] [] [] [] []]; reflexivity.
Qed.

Lemma digits_seen : forall s acc, digits true acc s <> None.
Proof.
  intros s; induction s as [|a s IH]; simpl; intros acc; [discriminate|].
  destruct (isDigit a); [apply IH | discriminate].
Qed.

Lemma digits_nonneg : forall s seen acc v,
  0 <= acc -> digits seen acc s = Some v -> 0 <= v.
Proof.
  intros s; induction s as [|a s IH]; simpl; intros seen acc v Hacc H.
  - destruct seen; [injection H as <-; assumption | discriminate].
  - destruct (isDigit a) eqn:Hd.
    + apply (IH true (10 * acc + digitValue a)); [|assumption].
      pose proof (isDigit_value a Hd). lia.
    + destruct seen; [injection H as <-; assumption | discriminate].
Qed.

Lemma digits_startsWithDigit : forall s,
  startsWithDigit s = true -> digits false 0 s <> None.
Proof.
  intros [|a s]; simpl; intros H; [discriminate|].
  rewrite H. apply digits_seen.
Qed.

(** What follows the digits is not read. *)
Lemma digits_app : forall ds rest seen acc,
  allDigits ds = true ->
  startsWithDigit rest = false ->
  seen = true \/ ds <> EmptyString ->
  digits seen acc (ds ++ rest) = digits seen acc ds.
Proof.
  intros ds; induction ds as [|a ds IH]; simpl; intros rest seen acc Hall Hrest Hseen.
  - destruct Hseen as [-> | Hne]; [|congruence].
    destruct rest as [|b rest]; simpl in *; [reflexivity|].
    rewrite Hrest. reflexivity.
  - apply andb_prop in Hall; destruct Hall as [Hd Hall].
    rewrite Hd. apply IH; auto.
Qed.

Lemma leadingDigits_parseInt : forall s,
  leadingDigits s = true -> parseInt s <> None.
Proof.
  intros [|a s]; [discriminate|].
  rewrite leadingDigits_cons.
  destruct (Ascii.eqb a "-") eqn:Hminus.
  - apply Ascii.eqb_eq in Hminus; subst a. intros Hd.
    rewrite parseInt_cons by reflexivity. simpl.
    pose proof (digits_startsWithDigit s Hd).
    destruct (digits false 0 s); [discriminate | congruence].
  - destruct (Ascii.eqb a "+") eqn:Hplus.
    + apply Ascii.eqb_eq in Hplus; subst a. intros Hd.
      rewrite parseInt_cons by reflexivity. simpl.
      apply digits_startsWithDigit; assumption.
    + intros Hd. destruct (isDigit_char a Hd) as [Hws _].
      rewrite parseInt_cons, Hminus, Hplus by assumption.
      simpl. rewrite Hd. apply digits_seen.
Qed.

Lemma indexOf_zero : forall c s,
  indexOf c s = 0 -> exists s', s = String c s'.
Proof.
  intros c [|a s]; simpl; intros H; [discriminate|].
  destruct (Ascii.eqb_spec a c) as [-> | Hne]; [eexists; reflexivity|].
  destruct (Z.ltb_spec (indexOf c s) 0); [discriminate | lia].
Qed.

Lemma parseInt_leading_hyphen : forall s v,
  parseInt (String "-" s) = Some v -> v <= 0.
Proof.
  intros s v. rewrite parseInt_cons by reflexivity. simpl.
  destruct (digits false 0 s) as [n|] eqn:Hd; [|discriminate].
  intros H; injection H as <-.
  pose proof (digits_nonneg s false 0 n (Z.le_refl 0) Hd). lia.
Qed.

(** The range part of a step expression starts as the expression does. *)
Lemma rangeOf_cons : forall a s,
  Ascii.eqb a "/" = false -> rangeOf (String a s) = String a (rangeOf s).
Proof.
  intros a s Ha. unfold rangeOf, stepPieces. simpl. rewrite Ha.
  pose proof (split_nonempty "/" s) as Hne.
  destruct (split "/" s) as [|p [|q r]]; [congruence | reflexivity | reflexivity].
Qed.

Lemma leadingDigits_stepInterval : forall part min max range,
  leadingDigits part = true ->
  stepInterval min max (rangeOf part) <> Throw (StepStartError range).
Proof.
  intros [|a s] min max range; [discriminate|].
  rewrite leadingDigits_cons.
  assert (Hskip : forall r, includes "-" r = true ->
            stepInterval min max r <> Throw (StepStartError range)).
  { intros r Hr. unfold stepInterval. rewrite Hr.
    destruct (String.eqb r "*"); [discriminate|].
    destruct (rangeBounds r) as [[x|] [y|]]; discriminate. }
  assert (Hnum : forall r, parseInt r <> None ->
            stepInterval min max r <> Throw (StepStartError range)).
  { intros r Hr. unfold stepInterval.
    destruct (String.eqb r "*"); [discriminate|].
    destruct (includes "-" r); [destruct (rangeBounds r) as [[x|] [y|]]; discriminate|].
    destruct (parseInt r); [discriminate | congruence]. }
  destruct (Ascii.eqb a "-") eqn:Hminus.
  - apply Ascii.eqb_eq in Hminus; subst a. intros _.
    rewrite rangeOf_cons by reflexivity. apply Hskip. reflexivity.
  - destruct (Ascii.eqb a "+") eqn:Hplus.
    + apply Ascii.eqb_eq in Hplus; subst a.
      destruct s as [|d s]; [discriminate|]. simpl. intros Hd.
      destruct (isDigit_char d Hd) as [_ [_ [_ Hslash]]].
      rewrite rangeOf_cons by reflexivity. rewrite rangeOf_cons by assumption.
      apply Hnum. apply leadingDigits_parseInt. simpl. assumption.
    + intros Hd. destruct (isDigit_char a Hd) as [_ [_ [_ Hslash]]].
      rewrite rangeOf_cons by assumption.
      apply Hnum. apply leadingDigits_parseInt.
      rewrite leadingDigits_cons, Hminus, Hplus. assumption.
Qed.

(** The forms are exhaustive and the loop body follows them. *)
Lemma form_cases : forall part,
  isStepForm part = true \/ isRangeForm part = true
  \/ isWildcard part = true \/ isSingleValue part = true.
Proof.
  intros part. unfold isWildcard, isSingleValue.
  destruct (isStepForm part); [auto|].
  destruct (isRangeForm part); [auto|].
  destruct (String.eqb part "*"); simpl; auto.
Qed.

Lemma processPart_wildcard : forall min max values part,
  isWildcard part = true ->
  processPart min max values part
  = Ok (forLoop (iterations min max) min max 1 NumberSet.add values).
Proof.
  intros min max values part Hform. unfold isWildcard in Hform.
  apply andb_prop in Hform; destruct Hform as [Hform Hstar].
  apply andb_prop in Hform; destruct Hform as [Hslash Hrange].
  unfold isStepForm in Hslash. unfold isRangeForm in Hrange.
  apply negb_true_iff in Hslash, Hrange.
  rewrite Hslash in Hrange; simpl in Hrange.
  unfold processPart. rewrite Hslash, Hrange, Hstar. reflexivity.
Qed.

Lemma processPart_InvalidValue : forall min max values part,
  failsWith (processPart min max values part) InvalidValue ->
  leadingDigits part = false.
Proof.
  intros min max values part [e [Hrun Hkind]].
  destruct (leadingDigits part) eqn:Hlead; [exfalso | reflexivity].
  destruct (form_cases part) as [Hf | [Hf | [Hf | Hf]]].
  - rewrite processPart_step in Hrun by assumption.
    destruct (parseInt (stepStrOf part)) as [step|];
      [|injection Hrun as <-; discriminate].
    destruct (step <=? 0); [injection Hrun as <-; discriminate|].
    destruct (stepInterval min max (rangeOf part)) as [bounds|e'] eqn:Hint;
      simpl in Hrun; [discriminate|].
    injection Hrun as <-.
    destruct (stepInterval_Throw _ _ _ _ Hint) as [-> | ->]; [discriminate|].
    apply (leadingDigits_stepInterval part min max (rangeOf part) Hlead Hint).
  - rewrite processPart_range in Hrun by assumption.
    destruct (rangeBounds part) as [[start_|] [end_|]];
      try (injection Hrun as <-; discriminate).
    destruct (start_ >? end_); [injection Hrun as <-|]; discriminate.
  - rewrite processPart_wildcard in Hrun by assumption. discriminate.
  - rewrite processPart_single in Hrun by assumption.
    pose proof (leadingDigits_parseInt part Hlead) as Hnum.
    destruct (parseInt part) as [value|]; [|congruence].
    destruct ((value >=? min) && (value <=? max));
      [discriminate | injection Hrun as <-; discriminate].
Qed.

Lemma processParts_Throw : forall min max parts values e,
  processParts min max values parts = Throw e ->
  exists part values', In part parts /\ processPart min max values' part = Throw e.
Proof.
  intros min max parts; induction parts as [|part rest IH]; simpl;
    intros values e Hrun; [discriminate|].
  destruct (processPart min max values part) as [mid|e'] eqn:Hpart; simpl in Hrun.
  - destruct (IH mid e Hrun) as [p [vs [Hin Hp]]].
    exists p, vs; auto.
  - injection Hrun as <-. exists part, values; auto.
Qed.

(** ** A hyphen at index 0 *)

(** The reading of C9 as it is worded fails: ["-abc"] has its only hyphen
    at index 0 and no slash, yet no number is parsed from it and the error
    is the invalid-value one, not the out-of-range one; ["-0"] parses to
    zero and is accepted by a field whose window holds 0; and with a slash
    after it, as in ["-1/2"], the hyphen makes the range part of a step
    expression, which fails with the invalid-range error. *)
Lemma leading_hyphen_not_always_out_of_range :
  (includes "/" "-abc" = false /\ indexOf "-" "-abc" = 0
   /\ includes "-" "abc" = false)
  /\ parseInt "-abc" = None
  /\ parseField "-abc" 0 59 = Throw (ValueParseError "-abc")
  /\ kind (ValueParseError "-abc") = InvalidValue
  /\ ~ failsWith (parseField "-abc" 0 59) OutOfRange
  /\ (includes "/" "-0" = false /\ indexOf "-" "-0" = 0
      /\ includes "-" "0" = false)
  /\ parseField "-0" 0 59 = Ok [0]
  /\ ~ failsWith (parseField "-0" 0 59) OutOfRange
  /\ parseField "-1/2" 0 59 = Throw (StepRangeError "-1")
  /\ kind (StepRangeError "-1") = InvalidRange.
Proof.
  repeat split; try reflexivity.
  - intros [e [Hrun Hkind]]. vm_compute in Hrun.
    injection Hrun as <-. discriminate.
  - intros [e [Hrun Hkind]]. vm_compute in Hrun. discriminate.
Qed.

(** C9, amended. A sub-expression without a slash whose first hyphen is at
    index 0 is not a range: it takes the single-value branch and never gives
    the invalid-range error. When it parses as a negative integer and the
    field has [min >= 0], it fails with the out-of-range error. What it parses
    to is never positive; when nothing parses, the error is the invalid-value
    one. *)
Theorem leading_hyphen_single_value :
  forall part min max,
    includes "/" part = false ->
    indexOf "-" part = 0 ->
    isRangeForm part = false
    /\ isSingleValue part = true
    /\ (forall values, ~ failsWith (processPart min max values part) InvalidRange)
    /\ (forall value,
          parseInt part = Some value ->
          value <= 0
          /\ (value < 0 -> 0 <= min ->
              throwsAt part min max (ValueBoundsError value min max)
              /\ kind (ValueBoundsError value min max) = OutOfRange))
    /\ (parseInt part = None ->
        throwsAt part min max (ValueParseError part)
        /\ kind (ValueParseError part) = InvalidValue).
Proof.
  intros part min max Hslash Hindex.
  assert (Hrange : isRangeForm part = false).
  { unfold isRangeForm. rewrite Hslash, Hindex.
    destruct (includes "-" part); reflexivity. }
  assert (Hsingle : isSingleValue part = true).
  { unfold isSingleValue, isStepForm. rewrite Hslash, Hrange.
    destruct (indexOf_zero _ _ Hindex) as [s' ->]. reflexivity. }
  split; [exact Hrange|]. split; [exact Hsingle|].
  split; [|split].
  - intros values [e [Hrun Hkind]].
    rewrite processPart_single in Hrun by assumption.
    destruct (parseInt part) as [value|];
      [|injection Hrun as <-; discriminate].
    destruct ((value >=? min) && (value <=? max));
      [discriminate | injection Hrun as <-; discriminate].
  - intros value Hparse. split.
    + destruct (indexOf_zero _ _ Hindex) as [s' ->].
      apply (parseInt_leading_hyphen s'); assumption.
    + intros Hneg Hmin. split; [|reflexivity].
      apply single_value_out_of_range; [assumption | assumption | lia].
  - intros Hnone. split; [|reflexivity].
    apply throwsAt_intro; intros values.
    rewrite processPart_single, Hnone by assumption. reflexivity.
Qed.

Lemma leading_hyphen_single_value_witness :
  throwsAt "-1" 0 59 (ValueBoundsError (-1) 0 59)
  /\ throwsAt "-abc" 0 59 (ValueParseError "-abc").
Proof.
  split.
  - destruct (leading_hyphen_single_value "-1" 0 59) as [_ [_ [_ [Hnum _]]]];
      try reflexivity.
    destruct (Hnum (-1)) as [_ Hout]; [reflexivity|].
    apply Hout; lia.
  - destruct (leading_hyphen_single_value "-abc" 0 59) as [_ [_ [_ [_ Hnan]]]];
      try reflexivity.
    apply Hnan. reflexivity.
Defined.

(** ** Lenient number parsing *)

(** C10. Numbers are read by their leading digits, not strictly: ["5abc"]
    in [[0, 59]] gives 5, and ["*/15x"] steps by 15. In general the text
    after a non-empty run of digits changes nothing in what [parseInt] reads,
    signed or not. Only a sub-expression without leading digits (after at
    most one sign) can fail with the invalid-value error. *)
Theorem parseInt_prefix_lenient :
  parseField "5abc" 0 59 = Ok [5]
  /\ parseField "*/15x" 0 59 = Ok [0; 15; 30; 45]
  /\ parseInt "15x" = Some 15
  /\ parseField "abc" 0 59 = Throw (ValueParseError "abc")
  /\ (forall ds rest,
        allDigits ds = true -> ds <> EmptyString ->
        startsWithDigit rest = false ->
        parseInt (ds ++ rest) = parseInt ds
        /\ parseInt ("-" ++ ds ++ rest) = parseInt ("-" ++ ds)
        /\ parseInt ("+" ++ ds ++ rest) = parseInt ("+" ++ ds)
        /\ parseInt ds <> None)
  /\ (forall part min max values,
        failsWith (processPart min max values part) InvalidValue ->
        leadingDigits part = false)
  /\ (forall expression min max,
        failsWith (parseField expression min max) InvalidValue ->
        exists part, In part (split "," expression)
                     /\ leadingDigits part = false).
Proof.
  do 4 (split; [reflexivity|]).
  split; [|split].
  - intros ds rest Hall Hne Hrest.
    assert (Hd : forall seen acc, digits seen acc (ds ++ rest) = digits seen acc ds).
    { intros seen acc. apply digits_app; auto. }
    destruct ds as [|d ds]; [congruence|].
    simpl in Hall. apply andb_prop in Hall; destruct Hall as [Hdig Hall].
    destruct (isDigit_char d Hdig) as [Hws [Hminus [Hplus _]]].
    split; [|split; [|split]].
    + change (String d ds ++ rest) with (String d (ds ++ rest)).
      rewrite !parseInt_cons, Hminus, Hplus by assumption.
      apply (Hd false 0).
    + change ("-" ++ String d ds ++ rest) with (String "-" (String d ds ++ rest)).
      change ("-" ++ String d ds) with (String "-" (String d ds)).
      rewrite !parseInt_cons by reflexivity. simpl Ascii.eqb. cbv iota.
      rewrite (Hd false 0). reflexivity.
    + change ("+" ++ String d ds ++ rest) with (String "+" (String d ds ++ rest)).
      change ("+" ++ String d ds) with (String "+" (String d ds)).
      rewrite !parseInt_cons by reflexivity. simpl Ascii.eqb. cbv iota.
      apply (Hd false 0).
    + apply leadingDigits_parseInt.
      rewrite leadingDigits_cons, Hminus, Hplus. assumption.
  - intros part min max values. apply processPart_InvalidValue.
  - intros expression min max [e [Hrun Hkind]]. unfold parseField in Hrun.
    destruct (processParts min max NumberSet.empty (split "," expression))
      as [values|e'] eqn:Hparts; simpl in Hrun; [discriminate|].
    injection Hrun as <-.
    destruct (processParts_Throw _ _ _ _ _ Hparts) as [part [vs [Hin Hp]]].
    exists part; split; [assumption|].
    apply (processPart_InvalidValue min max vs part).
    exists e'; auto.
Qed.

Lemma parseInt_prefix_lenient_witness :
  parseInt "15x" = parseInt "15"
  /\ leadingDigits "abc" = false.
Proof.
  destruct parseInt_prefix_lenient as [_ [_ [_ [_ [Hprefix [Hpart _]]]]]].
  split.
  - destruct (Hprefix "15" "x") as [Heq _];
      [reflexivity | discriminate | reflexivity | exact Heq].
  - apply (Hpart "abc" 0 59 []).
    exists (ValueParseError "abc"); split; reflexivity.
Defined.

(** * Further properties of the field expander *)
(** ** The shape of every result *)

Lemma parseField_result_shape : forall expression min max result_,
  parseField expression min max = Ok result_ ->
  Forall (fun x => min <= x <= max) result_
  /\ StronglySorted Z.lt result_
  /\ NoDup result_.
Proof.
  intros expression min max result_ Hrun. unfold parseField in Hrun.
  destruct (processParts min max NumberSet.empty (split "," expression))
    as [values|] eqn:Hparts; simpl in Hrun; [|discriminate].
  injection Hrun as <-.
  destruct (processParts_invariant _ _ _ _ _ Hparts) as [Hnd Hw];
    [split; constructor|].
  split; [|split].
  - unfold inWindow in Hw. rewrite Forall_forall in Hw |- *.
    intros x Hx. apply Hw. apply sortNumeric_In; assumption.
  - apply sortNumeric_increasing; assumption.
  - apply sortNumeric_NoDup; assumption.
Qed.


(** ** Strictly increasing lists *)

Lemma increasing_unique : forall l1 l2,
  StronglySorted Z.lt l1 -> StronglySorted Z.lt l2 ->
  (forall x, In x l1 <-> In x l2) -> l1 = l2.
Proof.
  intros l1; induction l1 as [|a l1 IH]; intros l2 H1 H2 Hmem.
  - destruct l2 as [|b l2]; [reflexivity|].
    exfalso. apply (proj2 (Hmem b)). left; reflexivity.
  - destruct l2 as [|b l2].
    + exfalso. apply (proj1 (Hmem a)). left; reflexivity.
    + apply StronglySorted_inv in H1; destruct H1 as [H1 Ha].
      apply StronglySorted_inv in H2; destruct H2 as [H2 Hb].
      rewrite Forall_forall in Ha, Hb.
      assert (Hab : a = b).
      { destruct (proj1 (Hmem a) (or_introl eq_refl)) as [Heq | Hin]; [auto|].
        destruct (proj2 (Hmem b) (or_introl eq_refl)) as [Heq | Hin']; [auto|].
        specialize (Ha b Hin'). specialize (Hb a Hin). lia. }
      subst b. f_equal. apply IH; [assumption | assumption |].
      intros x; split; intros Hin.
      * destruct (proj1 (Hmem x) (or_intror Hin)) as [Heq | Hin']; [|assumption].
        specialize (Ha x Hin). lia.
      * destruct (proj2 (Hmem x) (or_intror Hin)) as [Heq | Hin']; [|assumption].
        specialize (Hb x Hin). lia.
Qed.

Lemma increasing_NoDup : forall l, StronglySorted Z.lt l -> NoDup l.
Proof.
  intros l H; induction H as [|a l Hs IH Hall]; constructor; [|assumption].
  rewrite Forall_forall in Hall. intros Hin. specialize (Hall a Hin). lia.
Qed.

Lemma sortNumeric_increasing_id : forall l,
  StronglySorted Z.lt l -> sortNumeric l = l.
Proof.
  intros l H. apply increasing_unique.
  - apply sortNumeric_increasing, increasing_NoDup; assumption.
  - assumption.
  - apply sortNumeric_In.
Qed.

(** The result of sorting is fixed by the members. *)
Lemma sortNumeric_by_members : forall values l,
  NoDup values -> StronglySorted Z.lt l ->
  (forall x, In x values <-> In x l) -> sortNumeric values = l.
Proof.
  intros values l Hnd Hl Hmem. apply increasing_unique.
  - apply sortNumeric_increasing; assumption.
  - assumption.
  - intros x. rewrite sortNumeric_In. apply Hmem.
Qed.

Lemma increasing_length : forall l lo hi,
  StronglySorted Z.lt l -> Forall (fun x => lo <= x <= hi) l ->
  Z.of_nat (List.length l) <= Z.max 0 (hi - lo + 1).
Proof.
  intros l; induction l as [|a l IH]; intros lo hi Hs Hw; simpl List.length.
  - lia.
  - apply StronglySorted_inv in Hs; destruct Hs as [Hs Ha].
    apply Forall_cons_iff in Hw; destruct Hw as [Hwa Hw].
    assert (Hw' : Forall (fun x => a + 1 <= x <= hi) l).
    { rewrite Forall_forall in Ha, Hw |- *. intros x Hx.
      specialize (Ha x Hx). specialize (Hw x Hx). lia. }
    specialize (IH (a + 1) hi Hs Hw'). lia.
Qed.

Lemma ascending_In : forall lo hi x, In x (ascending lo hi) <-> lo <= x <= hi.
Proof.
  intros lo hi x. unfold ascending. rewrite in_map_iff. split.
  - intros [k [Hk Hin]]. apply in_seq in Hin. lia.
  - intros Hx. exists (Z.to_nat (x - lo)). split; [lia|].
    apply in_seq. lia.
Qed.

Lemma ascending_increasing : forall lo hi, StronglySorted Z.lt (ascending lo hi).
Proof.
  intros lo hi. unfold ascending.
  generalize (Z.to_nat (hi - lo + 1)) as n. generalize 0%nat as start.
  intros start n; revert start; induction n as [|n IH]; intros start; simpl.
  - constructor.
  - constructor; [apply IH|].
    rewrite Forall_forall. intros x Hx. apply in_map_iff in Hx.
    destruct Hx as [k [Hk Hin]]. apply in_seq in Hin. lia.
Qed.

(** ** What one part gives does not depend on what was collected before *)

Lemma processPart_outcome : forall min max part,
  (exists e, forall values, processPart min max values part = Throw e)
  \/ (exists P : Z -> Prop, forall values, exists values',
         processPart min max values part = Ok values'
         /\ forall x, In x values' <-> In x values \/ P x).
Proof.
  intros min max part.
  destruct (form_cases part) as [Hf | [Hf | [Hf | Hf]]].
  - destruct (parseInt (stepStrOf part)) as [step|] eqn:Hstep.
    + destruct (Z.leb_spec step 0) as [Hle | Hgt].
      * left; eexists; intros values.
        rewrite processPart_step, Hstep by assumption.
        destruct (Z.leb_spec step 0); [reflexivity | lia].
      * destruct (stepInterval min max (rangeOf part)) as [[lo hi]|e] eqn:Hint.
        -- right. exists (visited lo hi step min max).
           apply (step_form_emits part min max step lo hi); assumption.
        -- left; exists e; intros values.
           rewrite processPart_step, Hstep, Hint by assumption.
           destruct (Z.leb_spec step 0); [lia | reflexivity].
    + left; eexists; intros values.
      rewrite processPart_step, Hstep by assumption. reflexivity.
  - destruct (rangeBounds part) as [[start_|] [end_|]] eqn:Hb.
    + destruct (Z.gtb_spec start_ end_) as [Hgt | Hle].
      * left; eexists; intros values.
        rewrite processPart_range, Hb by assumption.
        destruct (Z.gtb_spec start_ end_); [reflexivity | lia].
      * right. eexists.
        apply (range_form_emits part min max start_ end_); assumption.
    + left; eexists; intros values.
      rewrite processPart_range, Hb by assumption. reflexivity.
    + left; eexists; intros values.
      rewrite processPart_range, Hb by assumption. reflexivity.
    + left; eexists; intros values.
      rewrite processPart_range, Hb by assumption. reflexivity.
  - right. exists (fun x => min <= x <= max). intros values.
    assert (Hstar : part = "*").
    { unfold isWildcard in Hf. apply andb_prop in Hf; destruct Hf as [_ Hf].
      apply String.eqb_eq; assumption. }
    subst part. apply (proj1 (wildcard_emits min max)).
  - destruct (parseInt part) as [value|] eqn:Hv.
    + destruct ((value >=? min) && (value <=? max)) eqn:Hw.
      * right. exists (fun x => x = value). intros values.
        rewrite processPart_single, Hv, Hw by assumption.
        eexists; split; [reflexivity|].
        intros x. rewrite add_In. tauto.
      * left; eexists; intros values.
        rewrite processPart_single, Hv, Hw by assumption. reflexivity.
    + left; eexists; intros values.
      rewrite processPart_single, Hv by assumption. reflexivity.
Qed.

Lemma processPart_Throw_any : forall min max part values e,
  processPart min max values part = Throw e ->
  forall values2, processPart min max values2 part = Throw e.
Proof.
  intros min max part values e Hrun values2.
  destruct (processPart_outcome min max part) as [[e' He] | [P HP]].
  - rewrite He in Hrun. injection Hrun as <-. apply He.
  - destruct (HP values) as [v [Hv _]]. congruence.
Qed.

Lemma processPart_Ok_any : forall min max part values values',
  processPart min max values part = Ok values' ->
  exists own,
    processPart min max NumberSet.empty part = Ok own
    /\ (forall x, In x values' <-> In x values \/ In x own)
    /\ forall values2, exists values2',
         processPart min max values2 part = Ok values2'
         /\ forall x, In x values2' <-> In x values2 \/ In x own.
Proof.
  intros min max part values values' Hrun.
  destruct (processPart_outcome min max part) as [[e' He] | [P HP]].
  - rewrite He in Hrun. discriminate.
  - destruct (HP NumberSet.empty) as [own [Hown Hmem]].
    assert (HownP : forall x, In x own <-> P x).
    { intros x. rewrite Hmem. simpl. tauto. }
    exists own. split; [assumption|]. split.
    + destruct (HP values) as [v [Hv Hvm]].
      rewrite Hv in Hrun. injection Hrun as <-.
      intros x. rewrite Hvm, HownP. reflexivity.
    + intros values2. destruct (HP values2) as [v [Hv Hvm]].
      exists v; split; [assumption|].
      intros x. rewrite Hvm, HownP. reflexivity.
Qed.

Lemma processParts_Ok_members : forall min max parts values result_,
  processParts min max values parts = Ok result_ ->
  Forall (partSucceeds min max) parts
  /\ forall x, In x result_ <-> In x values \/ denotes min max parts x.
Proof.
  intros min max parts; induction parts as [|part rest IH]; simpl;
    intros values result_ Hrun.
  - injection Hrun as <-. split; [constructor|].
    intros x; split; [auto|]. intros [H | [p [v [[] _]]]]; assumption.
  - destruct (processPart min max values part) as [mid|] eqn:Hpart;
      simpl in Hrun; [|discriminate].
    destruct (processPart_Ok_any _ _ _ _ _ Hpart) as [own [Hown [Hmid _]]].
    destruct (IH mid result_ Hrun) as [Hall Hmem].
    split; [constructor; [exists own; assumption | assumption]|].
    intros x. rewrite Hmem, Hmid. unfold denotes. split.
    + intros [[Hin | Hin] | [p [v [Hp [Hv Hx]]]]].
      * auto.
      * right. exists part, own. simpl; auto.
      * right. exists p, v. simpl; auto.
    + intros [Hin | [p [v [[<- | Hp] [Hv Hx]]]]].
      * auto.
      * left; right. rewrite Hown in Hv. injection Hv as <-. assumption.
      * right. exists p, v; auto.
Qed.

Lemma processParts_all_succeed : forall min max parts values,
  Forall (partSucceeds min max) parts ->
  exists result_, processParts min max values parts = Ok result_.
Proof.
  intros min max parts; induction parts as [|part rest IH]; simpl;
    intros values Hall.
  - eexists; reflexivity.
  - apply Forall_cons_iff in Hall; destruct Hall as [[own Hown] Hrest].
    destruct (processPart_Ok_any _ _ _ _ _ Hown) as [own' [_ [_ Hany]]].
    destruct (Hany values) as [mid [Hmid _]].
    rewrite Hmid. simpl. apply IH; assumption.
Qed.

Lemma processParts_first_error : forall min max before part after values e,
  Forall (partSucceeds min max) before ->
  processPart min max NumberSet.empty part = Throw e ->
  processParts min max values (before ++ part :: after) = Throw e.
Proof.
  intros min max before; induction before as [|p before IH]; simpl;
    intros part after values e Hall Hthrow.
  - rewrite (processPart_Throw_any _ _ _ _ _ Hthrow values). reflexivity.
  - apply Forall_cons_iff in Hall; destruct Hall as [[own Hown] Hrest].
    destruct (processPart_Ok_any _ _ _ _ _ Hown) as [own' [_ [_ Hany]]].
    destruct (Hany values) as [mid [Hmid _]].
    rewrite Hmid. simpl. apply IH; assumption.
Qed.

Lemma processParts_NoDup : forall min max parts result_,
  processParts min max NumberSet.empty parts = Ok result_ -> NoDup result_.
Proof.
  intros min max parts result_ Hrun.
  apply (processParts_invariant min max parts NumberSet.empty result_ Hrun).
  split; constructor.
Qed.

Lemma split_pieces_free : forall c s,
  Forall (fun piece => includes c piece = false) (split c s).
Proof.
  intros c s; induction s as [|a s IH]; simpl.
  - constructor; [reflexivity | constructor].
  - destruct (Ascii.eqb a c) eqn:Hac.
    + constructor; [reflexivity | assumption].
    + destruct (split c s) as [|piece pieces]; simpl.
      * constructor; [simpl; rewrite Hac; reflexivity | constructor].
      * apply Forall_cons_iff in IH; destruct IH as [Hp Hps].
        constructor; [simpl; rewrite Hac; assumption | assumption].
Qed.

(** ** Whole expressions as lists of parts *)

Lemma parseField_part : forall part min max,
  includes "," part = false ->
  (forall result_,
     parseField part min max = Ok result_
     <-> exists own, processPart min max NumberSet.empty part = Ok own
                     /\ result_ = sortNumeric own)
  /\ (forall e,
        parseField part min max = Throw e
        <-> processPart min max NumberSet.empty part = Throw e).
Proof.
  intros part min max Hc. rewrite parseField_single by assumption.
  destruct (processPart min max NumberSet.empty part) as [own|e']; simpl; split.
  - intros r; split.
    + intros H; injection H as <-. exists own; auto.
    + intros [own' [H ->]]. injection H as <-. reflexivity.
  - intros e; split; discriminate.
  - intros r; split; [discriminate | intros [own [H _]]; discriminate].
  - intros e; reflexivity.
Qed.

Lemma parts_parse_iff_succeed : forall expression min max,
  Forall (fun part => exists r, parseField part min max = Ok r)
    (split "," expression)
  <-> Forall (partSucceeds min max) (split "," expression).
Proof.
  intros expression min max.
  pose proof (split_pieces_free "," expression) as Hfree.
  rewrite !Forall_forall in *. split; intros H part Hin.
  - destruct (H part Hin) as [r Hr].
    apply (proj1 (parseField_part part min max (Hfree part Hin))) in Hr.
    destruct Hr as [own [Hown _]]. exists own; assumption.
  - destruct (H part Hin) as [own Hown].
    exists (sortNumeric own).
    apply (proj1 (parseField_part part min max (Hfree part Hin))).
    exists own; auto.
Qed.

Lemma parseField_succeeds_iff_parts_fact : forall expression min max,
  (exists result_, parseField expression min max = Ok result_)
  <-> Forall (fun part => exists r, parseField part min max = Ok r)
        (split "," expression).
Proof.
  intros expression min max. rewrite parts_parse_iff_succeed.
  unfold parseField. split.
  - intros [r Hr].
    destruct (processParts min max NumberSet.empty (split "," expression))
      as [values|] eqn:Hparts; simpl in Hr; [|discriminate].
    apply (processParts_Ok_members _ _ _ _ _ Hparts).
  - intros Hall.
    destruct (processParts_all_succeed min max _ NumberSet.empty Hall) as [v Hv].
    rewrite Hv. simpl. eexists; reflexivity.
Qed.

(** X1. An expression parses exactly when each of its comma-separated parts
    parses as an expression of its own. *)
Theorem parseField_succeeds_iff_parts : forall expression min max,
  (exists result_, parseField expression min max = Ok result_)
  <-> Forall (fun part => exists r, parseField part min max = Ok r)
        (split "," expression).
Proof.
  exact parseField_succeeds_iff_parts_fact.
Qed.

Lemma parseField_members_union_fact : forall expression min max result_,
  parseField expression min max = Ok result_ ->
  forall x,
    In x result_
    <-> exists part r,
          In part (split "," expression)
          /\ parseField part min max = Ok r /\ In x r.
Proof.
  intros expression min max result_ Hrun x. unfold parseField in Hrun.
  destruct (processParts min max NumberSet.empty (split "," expression))
    as [values|] eqn:Hparts; simpl in Hrun; [|discriminate].
  injection Hrun as <-.
  destruct (processParts_Ok_members _ _ _ _ _ Hparts) as [_ Hmem].
  pose proof (split_pieces_free "," expression) as Hfree.
  rewrite Forall_forall in Hfree.
  rewrite sortNumeric_In, Hmem. unfold denotes. simpl. split.
  - intros [[] | [part [own [Hin [Hown Hx]]]]].
    exists part, (sortNumeric own). split; [assumption|]. split.
    + apply (proj1 (parseField_part part min max (Hfree part Hin))).
      exists own; auto.
    + apply sortNumeric_In; assumption.
  - intros [part [r [Hin [Hr Hx]]]]. right.
    apply (proj1 (parseField_part part min max (Hfree part Hin))) in Hr.
    destruct Hr as [own [Hown ->]].
    exists part, own. rewrite sortNumeric_In in Hx. auto.
Qed.

(** X2. The values of an expression are the union of the values of its
    parts: an integer is returned exactly when one of the comma-separated
    parts, parsed on its own, returns it. *)
Theorem parseField_members_union : forall expression min max result_,
  parseField expression min max = Ok result_ ->
  forall x,
    In x result_
    <-> exists part r,
          In part (split "," expression)
          /\ parseField part min max = Ok r /\ In x r.
Proof.
  exact parseField_members_union_fact.
Qed.

Lemma parseField_members_union_witness :
  In 4 [1; 2; 3; 4]
  <-> exists part r,
        In part (split "," "1-3,2-4")
        /\ parseField part 0 10 = Ok r /\ In 4 r.
Proof.
  apply (parseField_members_union "1-3,2-4" 0 10 [1; 2; 3; 4]).
  reflexivity.
Defined.

Lemma parseField_first_error_fact :
  forall expression min max before part after e,
    split "," expression = (before ++ part :: after)%list ->
    Forall (fun p => exists r, parseField p min max = Ok r) before ->
    parseField part min max = Throw e ->
    parseField expression min max = Throw e.
Proof.
  intros expression min max before part after e Hsplit Hbefore Hpart.
  pose proof (split_pieces_free "," expression) as Hfree.
  rewrite Hsplit in Hfree. rewrite Forall_forall in Hfree.
  assert (Hthrow : processPart min max NumberSet.empty part = Throw e).
  { apply (proj2 (parseField_part part min max
                    (Hfree part (in_elt part before after)))).
    assumption. }
  assert (Hok : Forall (partSucceeds min max) before).
  { rewrite Forall_forall in Hbefore |- *. intros p Hp.
    destruct (Hbefore p Hp) as [r Hr].
    assert (Hin : In p (before ++ part :: after)%list)
      by (apply in_or_app; left; assumption).
    apply (proj1 (parseField_part p min max (Hfree p Hin))) in Hr.
    destruct Hr as [own [Hown _]]. exists own; assumption. }
  unfold parseField. rewrite Hsplit.
  rewrite (processParts_first_error min max before part after _ e Hok Hthrow).
  reflexivity.
Qed.

(** X3. The first part that fails decides the error: when the parts before
    it parse on their own and it throws [e] on its own, the expression throws
    [e], whatever follows. *)
Theorem parseField_first_error :
  forall expression min max before part after e,
    split "," expression = (before ++ part :: after)%list ->
    Forall (fun p => exists r, parseField p min max = Ok r) before ->
    parseField part min max = Throw e ->
    parseField expression min max = Throw e.
Proof.
  exact parseField_first_error_fact.
Qed.

Lemma parseField_first_error_witness :
  parseField "1,70,x,5-2" 0 59 = Throw (ValueBoundsError 70 0 59).
Proof.
  apply (parseField_first_error "1,70,x,5-2" 0 59 ["1"] "70" ["x"; "5-2"]).
  - reflexivity.
  - constructor; [exists [1]; reflexivity | constructor].
  - reflexivity.
Defined.

(** X4. The result depends only on which parts occur, not on their order or
    on how often each occurs: two expressions with the same set of
    comma-separated parts that parse give the same sequence. *)
Theorem parseField_parts_set : forall e1 e2 min max r1,
  (forall part, In part (split "," e1) <-> In part (split "," e2)) ->
  parseField e1 min max = Ok r1 ->
  parseField e2 min max = Ok r1.
Proof.
  intros e1 e2 min max r1 Hsame Hrun.
  assert (Hall : exists r2, parseField e2 min max = Ok r2).
  { apply parseField_succeeds_iff_parts_fact.
    assert (H1 : exists r, parseField e1 min max = Ok r) by (exists r1; assumption).
    apply parseField_succeeds_iff_parts_fact in H1.
    rewrite Forall_forall in H1 |- *. intros part Hin.
    apply H1, Hsame; assumption. }
  destruct Hall as [r2 Hr2]. rewrite Hr2. f_equal.
  destruct (parseField_result_shape _ _ _ _ Hrun) as [_ [Hs1 _]].
  destruct (parseField_result_shape _ _ _ _ Hr2) as [_ [Hs2 _]].
  apply increasing_unique; [assumption | assumption |].
  intros x.
  rewrite (parseField_members_union_fact _ _ _ _ Hr2 x).
  rewrite (parseField_members_union_fact _ _ _ _ Hrun x).
  split; intros [part [r [Hin H]]]; exists part, r;
    (split; [apply Hsame; assumption | assumption]).
Qed.

Lemma parseField_parts_set_witness :
  parseField "10,5-7,1,5-7" 0 15 = Ok [1; 5; 6; 7; 10].
Proof.
  apply (parseField_parts_set "1,5-7,10" "10,5-7,1,5-7" 0 15).
  - intros part; simpl; tauto.
  - reflexivity.
Defined.

(** ** Joining two expressions with a comma *)

Lemma split_app : forall c a b,
  split c (a ++ String c b) = (split c a ++ split c b)%list.
Proof.
  intros c a b; induction a as [|x a IH]; simpl.
  - rewrite Ascii.eqb_refl. reflexivity.
  - destruct (Ascii.eqb x c); [rewrite IH; reflexivity|].
    rewrite IH. pose proof (split_nonempty c a) as Hne.
    destruct (split c a) as [|p ps]; [congruence | reflexivity].
Qed.

Lemma processParts_app : forall min max p1 p2 values,
  processParts min max values (p1 ++ p2)
  = (mid <- processParts min max values p1 ;; processParts min max mid p2).
Proof.
  intros min max p1; induction p1 as [|part rest IH]; simpl; intros p2 values.
  - reflexivity.
  - destruct (processPart min max values part) as [mid|e]; simpl;
      [apply IH | reflexivity].
Qed.

Lemma processParts_Throw_any : forall min max parts values e,
  processParts min max values parts = Throw e ->
  forall values2, processParts min max values2 parts = Throw e.
Proof.
  intros min max parts; induction parts as [|part rest IH]; simpl;
    intros values e Hrun values2; [discriminate|].
  destruct (processPart min max values part) as [mid|e'] eqn:Hpart; simpl in Hrun.
  - destruct (processPart_Ok_any _ _ _ _ _ Hpart) as [own [_ [_ Hany]]].
    destruct (Hany values2) as [mid2 [Hmid2 _]]. rewrite Hmid2. simpl.
    apply (IH mid); assumption.
  - injection Hrun as <-.
    rewrite (processPart_Throw_any _ _ _ _ _ Hpart values2). reflexivity.
Qed.

Lemma addAll_In : forall extra s x,
  In x (addAll extra s) <-> In x s \/ In x extra.
Proof.
  unfold addAll. intros extra; induction extra as [|y extra IH]; simpl; intros s x.
  - tauto.
  - rewrite IH, add_In. intuition congruence.
Qed.

Lemma addAll_NoDup : forall extra s, NoDup s -> NoDup (addAll extra s).
Proof.
  unfold addAll. intros extra; induction extra as [|y extra IH]; simpl; intros s H.
  - assumption.
  - apply IH, add_NoDup; assumption.
Qed.

Lemma parseField_comma_fact : forall a b min max,
  parseField (a ++ "," ++ b) min max
  = (ra <- parseField a min max ;;
     rb <- parseField b min max ;;
     Ok (sortNumeric (addAll rb ra))).
Proof.
  intros a b min max. unfold parseField.
  change (a ++ "," ++ b) with (a ++ String "," b).
  rewrite split_app, processParts_app.
  destruct (processParts min max NumberSet.empty (split "," a))
    as [va|ea] eqn:Ha; simpl; [|reflexivity].
  destruct (processParts min max NumberSet.empty (split "," b))
    as [vb|eb] eqn:Hb; simpl.
  - destruct (processParts_Ok_members _ _ _ _ _ Hb) as [Hall Hmb].
    destruct (processParts_all_succeed min max _ va Hall) as [vab Hab].
    rewrite Hab. simpl. f_equal.
    destruct (processParts_Ok_members _ _ _ _ _ Hab) as [_ Hmab].
    assert (Hnd : NoDup vab).
    { apply (processParts_invariant min max (split "," b) va vab Hab).
      apply (processParts_invariant min max (split "," a) NumberSet.empty va Ha).
      split; constructor. }
    apply sortNumeric_by_members; [assumption | |].
    + apply sortNumeric_increasing, addAll_NoDup, sortNumeric_NoDup.
      apply (processParts_NoDup min max (split "," a)); assumption.
    + intros x. rewrite sortNumeric_In, addAll_In, !sortNumeric_In.
      rewrite Hmab, Hmb. unfold NumberSet.empty. simpl. tauto.
  - rewrite (processParts_Throw_any _ _ _ _ _ Hb va). reflexivity.
Qed.

(** X5. Joining two expressions with a comma: the first is tried first and
    its error wins, then the second; when both parse, the result is the
    sorted union of their results. *)
Theorem parseField_comma : forall a b min max,
  parseField (a ++ "," ++ b) min max
  = (ra <- parseField a min max ;;
     rb <- parseField b min max ;;
     Ok (sortNumeric (addAll rb ra))).
Proof.
  exact parseField_comma_fact.
Qed.

(** X6. Writing an expression twice, joined by a comma, changes nothing:
    the same values when it parses, the same error when it does not. *)
Theorem parseField_twice : forall a min max,
  parseField (a ++ "," ++ a) min max = parseField a min max.
Proof.
  intros a min max. rewrite parseField_comma_fact.
  destruct (parseField a min max) as [r|e] eqn:Hr; simpl; [|reflexivity].
  f_equal.
  destruct (parseField_result_shape _ _ _ _ Hr) as [_ [Hs Hnd]].
  apply sortNumeric_by_members; [apply addAll_NoDup; assumption | assumption |].
  intros x. rewrite addAll_In. tauto.
Qed.

(** X7. An empty part is never accepted. An expression one of whose
    comma-separated parts is empty returns no result, and so does every
    expression that ends with a comma; an expression that parses, followed by
    a comma, fails with the invalid-value error for the empty text; one that
    starts with a comma and the empty expression fail with that error. *)
Theorem parseField_empty_part :
  (forall expression min max,
     In EmptyString (split "," expression) ->
     forall result_, parseField expression min max <> Ok result_)
  /\ (forall expression min max result_,
        parseField (expression ++ ",") min max <> Ok result_)
  /\ (forall expression min max result_,
        parseField expression min max = Ok result_ ->
        parseField (expression ++ ",") min max = Throw (ValueParseError ""))
  /\ (forall expression min max,
        parseField ("," ++ expression) min max = Throw (ValueParseError ""))
  /\ (forall min max, parseField "" min max = Throw (ValueParseError "")).
Proof.
  assert (Hgen : forall expression min max,
             In EmptyString (split "," expression) ->
             forall result_, parseField expression min max <> Ok result_).
  { intros expression min max Hin r Hrun.
    assert (H : exists r', parseField expression min max = Ok r')
      by (exists r; assumption).
    apply parseField_succeeds_iff_parts_fact in H. rewrite Forall_forall in H.
    destruct (H EmptyString Hin) as [r' Hr']. discriminate. }
  split; [exact Hgen|]. split; [|split; [|split]].
  - intros expression min max. apply Hgen.
    change (expression ++ ",") with (expression ++ String "," EmptyString).
    rewrite split_app. apply in_or_app. right. left. reflexivity.
  - intros expression min max r Hrun.
    change (expression ++ ",") with (expression ++ "," ++ "").
    rewrite parseField_comma_fact, Hrun. reflexivity.
  - intros expression min max.
    apply (parseField_first_error_fact ("," ++ expression) min max []
             EmptyString (split "," expression)); [reflexivity | constructor | reflexivity].
  - intros min max. reflexivity.
Qed.

Lemma parseField_empty_part_witness :
  parseField "1,,3" 0 59 <> Ok [1; 3]
  /\ parseField ("1,3" ++ ",") 0 59 = Throw (ValueParseError "").
Proof.
  destruct parseField_empty_part as [Hpart [_ [Hend _]]].
  split.
  - apply (Hpart "1,,3" 0 59). right. left. reflexivity.
  - apply (Hend "1,3" 0 59 [1; 3]). reflexivity.
Defined.

(** X8. A field never expands to more values than its window holds: the
    length of the result is at most [max - min + 1], and the result is empty
    when [max < min]. *)
Theorem parseField_length_bound : forall expression min max result_,
  parseField expression min max = Ok result_ ->
  Z.of_nat (List.length result_) <= Z.max 0 (max - min + 1)
  /\ (max < min -> result_ = []).
Proof.
  intros expression min max result_ Hrun.
  destruct (parseField_result_shape _ _ _ _ Hrun) as [Hw [Hs _]].
  pose proof (increasing_length result_ min max Hs Hw) as Hlen.
  split; [assumption|].
  intros Hlt. destruct result_; [reflexivity | simpl List.length in Hlen; lia].
Qed.

Lemma parseField_length_bound_witness :
  Z.of_nat (List.length [0; 15; 30; 45]) <= Z.max 0 (59 - 0 + 1)
  /\ (59 < 0 -> [0; 15; 30; 45] = []).
Proof.
  apply (parseField_length_bound "*/15,0-59/15" 0 59 [0; 15; 30; 45]).
  reflexivity.
Defined.

(** X9. Sorting a returned sequence again changes nothing. *)
Theorem parseField_sorted_again : forall expression min max result_,
  parseField expression min max = Ok result_ ->
  sortNumeric result_ = result_.
Proof.
  intros expression min max result_ Hrun.
  destruct (parseField_result_shape _ _ _ _ Hrun) as [_ [Hs _]].
  apply sortNumeric_increasing_id; assumption.
Qed.

Lemma parseField_sorted_again_witness :
  sortNumeric [1; 3; 5] = [1; 3; 5].
Proof.
  apply (parseField_sorted_again "5,1,3" 0 10). reflexivity.
Defined.

(** X10. For bounds that a number holds exactly, the wildcard gives the
    whole window in ascending order; and an expression that has the wildcard
    among its parts gives the whole window whenever it parses. *)
Theorem parseField_wildcard :
  (forall min max,
     safeInteger min -> safeInteger max ->
     parseField "*" min max = Ok (ascending min max))
  /\ (forall expression min max result_,
        In "*" (split "," expression) ->
        parseField expression min max = Ok result_ ->
        result_ = ascending min max).
Proof.
  assert (Hstar : forall min max, parseField "*" min max = Ok (ascending min max)).
  { intros min max.
    destruct (proj2 (wildcard_emits min max) eq_refl) as [r [Hr Hmem]].
    rewrite Hr. f_equal.
    destruct (parseField_result_shape _ _ _ _ Hr) as [_ [Hs _]].
    apply increasing_unique; [assumption | apply ascending_increasing |].
    intros x. rewrite Hmem, ascending_In. reflexivity. }
  split; [intros min max _ _; apply Hstar|].
  intros expression min max result_ Hin Hrun.
  destruct (parseField_result_shape _ _ _ _ Hrun) as [Hw [Hs _]].
  apply increasing_unique; [assumption | apply ascending_increasing |].
  intros x. rewrite ascending_In. split.
  - rewrite Forall_forall in Hw. apply Hw.
  - intros Hx. apply (parseField_members_union_fact _ _ _ _ Hrun).
    exists "*", (ascending min max). split; [assumption|].
    split; [apply Hstar | apply ascending_In; assumption].
Qed.

Lemma parseField_wildcard_witness :
  parseField "*" 1 12 = Ok (ascending 1 12)
  /\ [0; 1; 2; 3; 4; 5; 6] = ascending 0 6.
Proof.
  split.
  - apply (proj1 parseField_wildcard 1 12); unfold safeInteger; lia.
  - apply (proj2 parseField_wildcard "1-3,*,*/2" 0 6).
    + right. left. reflexivity.
    + reflexivity.
Defined.

(** ** Numbers and their decimal text *)

Lemma digits_cons_digit : forall a s seen acc,
  isDigit a = true ->
  digits seen acc (String a s) = digits true (10 * acc + digitValue a) s.
Proof.
  intros a s seen acc H. simpl. rewrite H. reflexivity.
Qed.

Lemma digits_string_of_uint : forall d seen acc,
  seen = true \/ d <> Decimal.Nil ->
  digits seen acc (NilEmpty.string_of_uint d) = Some (uintValue acc d).
Proof.
  intros d; induction d; intros seen acc Hseen;
    try (cbn [NilEmpty.string_of_uint uintValue];
         rewrite digits_cons_digit by reflexivity;
         apply IHd; left; reflexivity).
  destruct Hseen as [-> | Hne]; [reflexivity | congruence].
Qed.

Lemma allDigits_string_of_uint : forall d,
  allDigits (NilEmpty.string_of_uint d) = true.
Proof.
  intros d; induction d; cbn [NilEmpty.string_of_uint allDigits];
    try reflexivity; rewrite IHd; reflexivity.
Qed.

Lemma uintValue_of_uint_acc : forall d p,
  Z.pos (Pos.of_uint_acc d p) = uintValue (Z.pos p) d.
Proof.
  intros d; induction d; intros p; cbn [Pos.of_uint_acc uintValue];
    try reflexivity; rewrite IHd; f_equal; lia.
Qed.

Lemma uintValue_of_uint : forall d, Z.of_N (Pos.of_uint d) = uintValue 0 d.
Proof.
  intros d; induction d; cbn [Pos.of_uint uintValue];
    try reflexivity; try exact IHd;
    cbn [Z.of_N]; rewrite uintValue_of_uint_acc; reflexivity.
Qed.

Lemma allDigits_includes : forall c ds,
  isDigit c = false -> allDigits ds = true -> includes c ds = false.
Proof.
  intros c ds Hc; induction ds as [|a ds IH]; simpl; intros H; [reflexivity|].
  apply andb_prop in H; destruct H as [Ha Hds].
  destruct (Ascii.eqb_spec a c) as [-> | _]; [congruence | auto].
Qed.

(** The decimal text of [n]: the digits of its absolute value, after a hyphen
    when it is negative. *)
Lemma toString_shape : forall n,
  exists ds,
    allDigits ds = true /\ startsWithDigit ds = true
    /\ digits false 0 ds = Some (Z.abs n)
    /\ toString n = if n <? 0 then String "-" ds else ds.
Proof.
  assert (Hpos : forall p,
            let ds := NilEmpty.string_of_uint (Pos.to_uint p) in
            allDigits ds = true /\ startsWithDigit ds = true
            /\ digits false 0 ds = Some (Z.pos p)
            /\ NilZero.string_of_uint (Pos.to_uint p) = ds).
  { intros p ds. subst ds.
    pose proof (DecimalPos.Unsigned.to_uint_nonnil p) as Hnil.
    pose proof (DecimalPos.Unsigned.of_to p) as Hof.
    pose proof (allDigits_string_of_uint (Pos.to_uint p)) as Hall.
    split; [assumption|]. split; [|split].
    - destruct (Pos.to_uint p); try congruence; reflexivity.
    - rewrite digits_string_of_uint by (right; assumption).
      rewrite <- uintValue_of_uint, Hof. reflexivity.
    - destruct (Pos.to_uint p); try congruence; reflexivity. }
  intros [|p|p].
  - exists "0". repeat split.
  - destruct (Hpos p) as [Hall [Hstart [Hd Hs]]].
    exists (NilEmpty.string_of_uint (Pos.to_uint p)).
    repeat split; try assumption.
  - destruct (Hpos p) as [Hall [Hstart [Hd Hs]]].
    exists (NilEmpty.string_of_uint (Pos.to_uint p)).
    repeat split; try assumption.
    unfold toString. cbn [Z.to_int NilZero.string_of_int Z.ltb Z.compare].
    rewrite Hs. reflexivity.
Qed.

Lemma startsWithDigit_char : forall s,
  startsWithDigit s = true -> exists a s', s = String a s' /\ isDigit a = true.
Proof.
  intros [|a s'] H; [discriminate|]. exists a, s'; auto.
Qed.

Lemma parseInt_toString_fact : forall n, parseInt (toString n) = Some n.
Proof.
  intros n. destruct (toString_shape n) as [ds [Hall [Hstart [Hd Hs]]]].
  rewrite Hs. destruct (Z.ltb_spec n 0) as [Hneg | Hnn].
  - rewrite parseInt_cons by reflexivity. simpl Ascii.eqb. cbv iota.
    rewrite Hd. simpl. f_equal. lia.
  - destruct (startsWithDigit_char ds Hstart) as [a [s' [-> Ha]]].
    destruct (isDigit_char a Ha) as [Hws [Hminus [Hplus _]]].
    rewrite parseInt_cons, Hminus, Hplus by assumption.
    rewrite Hd. f_equal. lia.
Qed.

(** X11. Reading the decimal text of an integer gives the integer back
    (for the integers that a number holds exactly). *)
Theorem parseInt_toString : forall n,
  safeInteger n -> parseInt (toString n) = Some n.
Proof.
  intros n _. apply parseInt_toString_fact.
Qed.

Lemma parseInt_toString_witness : parseInt (toString (-120)) = Some (-120).
Proof.
  apply (parseInt_toString (-120)). unfold safeInteger. lia.
Defined.

Lemma toString_free : forall n c,
  isDigit c = false -> c <> "-"%char -> includes c (toString n) = false.
Proof.
  intros n c Hc Hminus. destruct (toString_shape n) as [ds [Hall [_ [_ Hs]]]].
  rewrite Hs. destruct (n <? 0); [|apply allDigits_includes; assumption].
  cbn [includes]. destruct (Ascii.eqb_spec "-"%char c) as [Heq | _]; [congruence|].
  apply allDigits_includes; assumption.
Qed.

Lemma toString_isSingleValue : forall n, isSingleValue (toString n) = true.
Proof.
  intros n. unfold isSingleValue, isStepForm, isRangeForm.
  rewrite (toString_free n "/") by (reflexivity || discriminate).
  destruct (toString_shape n) as [ds [Hall [Hstart [_ Hs]]]].
  rewrite Hs. destruct (n <? 0).
  - reflexivity.
  - rewrite (allDigits_includes "-" ds) by (reflexivity || assumption).
    destruct (startsWithDigit_char ds Hstart) as [a [s' [-> Ha]]].
    destruct (Ascii.eqb_spec a "*") as [-> | Hne]; [discriminate|].
    simpl. apply Ascii.eqb_neq in Hne. rewrite Hne. reflexivity.
Qed.

Lemma processPart_toString : forall min max values n,
  processPart min max values (toString n)
  = if (n >=? min) && (n <=? max) then Ok (NumberSet.add n values)
    else Throw (ValueBoundsError n min max).
Proof.
  intros min max values n.
  rewrite processPart_single by apply toString_isSingleValue.
  rewrite parseInt_toString_fact. reflexivity.
Qed.

(** X12. The decimal text of an exactly held integer, taken as an expression, gives that
    integer alone when it lies in the window and the out-of-range error
    when it does not. *)
Theorem parseField_toString : forall n min max,
  safeInteger n ->
  parseField (toString n) min max
  = if (n >=? min) && (n <=? max) then Ok [n]
    else Throw (ValueBoundsError n min max).
Proof.
  intros n min max _.
  rewrite parseField_single by (apply toString_free; [reflexivity | discriminate]).
  rewrite processPart_toString.
  destruct ((n >=? min) && (n <=? max)); reflexivity.
Qed.

Lemma parseField_toString_witness :
  parseField (toString 7) 0 59 = Ok [7]
  /\ parseField (toString (-1)) 0 59 = Throw (ValueBoundsError (-1) 0 59).
Proof.
  split.
  - apply (parseField_toString 7 0 59). unfold safeInteger. lia.
  - apply (parseField_toString (-1) 0 59). unfold safeInteger. lia.
Defined.

(** ** Splitting and joining *)

Lemma split_join_inverse_fact :
  (forall c s, join (String c EmptyString) (split c s) = s)
  /\ (forall c pieces,
        pieces <> [] ->
        Forall (fun piece => includes c piece = false) pieces ->
        split c (join (String c EmptyString) pieces) = pieces).
Proof.
  split.
  - intros c s; induction s as [|a s IH]; [reflexivity|].
    simpl split. pose proof (split_nonempty c s) as Hne.
    destruct (Ascii.eqb_spec a c) as [-> | Hac].
    + destruct (split c s) as [|p ps]; [congruence|].
      change (join (String c "") ("" :: p :: ps))
        with (String c (join (String c "") (p :: ps))).
      rewrite IH. reflexivity.
    + destruct (split c s) as [|p [|q qs]]; [congruence | |].
      * simpl in IH |- *. rewrite IH. reflexivity.
      * change (join (String c "") (String a p :: q :: qs))
          with (String a (join (String c "") (p :: q :: qs))).
        rewrite IH. reflexivity.
  - intros c pieces; induction pieces as [|p rest IH]; intros Hne Hfree;
      [congruence|].
    apply Forall_cons_iff in Hfree; destruct Hfree as [Hp Hrest].
    destruct rest as [|q rest].
    + simpl. apply split_without_separator; assumption.
    + change (join (String c "") (p :: q :: rest))
        with (p ++ String c (join (String c "") (q :: rest))).
      rewrite split_at_first by assumption.
      rewrite IH; [reflexivity | discriminate | assumption].
Qed.

(** X13. Splitting at a character and joining with it are inverse: joining
    the pieces of any text gives the text back, and splitting the join of a
    non-empty list of pieces that do not hold the separator gives the pieces
    back. *)
Theorem split_join_inverse :
  (forall c s, join (String c EmptyString) (split c s) = s)
  /\ (forall c pieces,
        pieces <> [] ->
        Forall (fun piece => includes c piece = false) pieces ->
        split c (join (String c EmptyString) pieces) = pieces).
Proof.
  exact split_join_inverse_fact.
Qed.

Lemma split_join_inverse_witness :
  split "," (join "," ["1"; "5-7"; "*/2"]) = ["1"; "5-7"; "*/2"].
Proof.
  apply (proj2 split_join_inverse ","%char ["1"; "5-7"; "*/2"]).
  - discriminate.
  - repeat constructor.
Defined.

(** ** Parsing a list of numbers *)

Lemma processParts_toString : forall min max vs values,
  Forall (fun x => min <= x <= max) vs ->
  processParts min max values (map toString vs) = Ok (addAll vs values).
Proof.
  intros min max vs; induction vs as [|v vs IH]; simpl; intros values Hw.
  - reflexivity.
  - apply Forall_cons_iff in Hw; destruct Hw as [Hv Hw].
    rewrite processPart_toString.
    destruct (Z.geb_spec v min), (Z.leb_spec v max); try lia. simpl.
    apply IH; assumption.
Qed.

(** X14. With exactly held bounds, a comma-separated list of integers of the window parses to those
    integers, sorted and each once. So the values that [parseField] returns,
    written out and joined by commas, parse to themselves. *)
Theorem parseField_number_list :
  (forall vs min max,
     safeInteger min -> safeInteger max ->
     vs <> [] ->
     Forall (fun x => min <= x <= max) vs ->
     parseField (join "," (map toString vs)) min max
     = Ok (sortNumeric (addAll vs NumberSet.empty)))
  /\ (forall expression min max result_,
        safeInteger min -> safeInteger max ->
        parseField expression min max = Ok result_ ->
        result_ <> [] ->
        parseField (join "," (map toString result_)) min max = Ok result_).
Proof.
  assert (Hlist : forall vs min max,
            vs <> [] ->
            Forall (fun x => min <= x <= max) vs ->
            parseField (join "," (map toString vs)) min max
            = Ok (sortNumeric (addAll vs NumberSet.empty))).
  { intros vs min max Hne Hw. unfold parseField.
    rewrite (proj2 split_join_inverse_fact ","%char (map toString vs)).
    - rewrite processParts_toString by assumption. reflexivity.
    - destruct vs; [congruence | discriminate].
    - rewrite Forall_forall. intros piece Hin. apply in_map_iff in Hin.
      destruct Hin as [n [<- _]].
      apply toString_free; [reflexivity | discriminate]. }
  split; [intros vs min max _ _; apply Hlist|].
  intros expression min max result_ _ _ Hrun Hne.
  destruct (parseField_result_shape _ _ _ _ Hrun) as [Hw [Hs Hnd]].
  rewrite Hlist by assumption. f_equal.
  apply sortNumeric_by_members; [|assumption|].
  - apply addAll_NoDup. constructor.
  - intros x. rewrite addAll_In. simpl. tauto.
Qed.

Lemma parseField_number_list_witness :
  parseField (join "," (map toString [30; 5; 30])) 0 59
  = Ok (sortNumeric (addAll [30; 5; 30] NumberSet.empty))
  /\ parseField (join "," (map toString [0; 15; 30; 45])) 0 59
     = Ok [0; 15; 30; 45].
Proof.
  split.
  - apply (proj1 parseField_number_list [30; 5; 30] 0 59);
      [unfold safeInteger; lia | unfold safeInteger; lia
      | discriminate | repeat constructor; lia].
  - apply (proj2 parseField_number_list "*/15" 0 59 [0; 15; 30; 45]);
      [unfold safeInteger; lia | unfold safeInteger; lia
      | reflexivity | discriminate].
Defined.

(** ** Single values and ranges, exactly *)

(** X15. A single value inside the window is returned alone. A valid range
    [start-end] whose bounds a number holds exactly gives the integers from
    the larger of [start] and [min] to the smaller of [end] and [max], in
    ascending order. *)
Theorem parseField_value_and_range_exact :
  (forall part min max value,
     includes "," part = false ->
     isSingleValue part = true ->
     parseInt part = Some value ->
     min <= value <= max ->
     parseField part min max = Ok [value])
  /\ (forall part min max start_ end_,
        includes "," part = false ->
        isRangeForm part = true ->
        rangeBounds part = (Some start_, Some end_) ->
        safeInteger start_ -> safeInteger end_ ->
        start_ <= end_ ->
        parseField part min max
        = Ok (ascending (Z.max start_ min) (Z.min end_ max))).
Proof.
  split.
  - intros part min max value Hc Hform Hparse Hw.
    rewrite parseField_single by assumption.
    rewrite processPart_single, Hparse by assumption.
    destruct (Z.geb_spec value min), (Z.leb_spec value max); try lia.
    reflexivity.
  - intros part min max start_ end_ Hc Hform Hb _ _ Hle.
    destruct (proj2 (range_form_emits part min max start_ end_ Hform Hb Hle) Hc)
      as [r [Hr Hmem]].
    rewrite Hr. f_equal.
    destruct (parseField_result_shape _ _ _ _ Hr) as [_ [Hs _]].
    apply increasing_unique; [assumption | apply ascending_increasing |].
    intros x. rewrite Hmem, ascending_In. lia.
Qed.

Lemma parseField_value_and_range_exact_witness :
  parseField "+7" 0 59 = Ok [7]
  /\ parseField "50-70" 0 59 = Ok (ascending (Z.max 50 0) (Z.min 70 59)).
Proof.
  split.
  - apply (proj1 parseField_value_and_range_exact "+7" 0 59 7);
      [reflexivity | reflexivity | reflexivity | lia].
  - apply (proj2 parseField_value_and_range_exact "50-70" 0 59 50 70);
      [reflexivity | reflexivity | reflexivity | unfold safeInteger; lia
      | unfold safeInteger; lia | lia].
Defined.

(** * Properties of the composer *)

(** ** Trimming and tokens *)

Lemma splitWsFrom_nonempty : forall s b, splitWsFrom b s <> [].
Proof.
  intros s; induction s as [|a s IH]; intros b; simpl; [discriminate|].
  destruct (isWhiteSpace a).
  - destruct b; [apply IH | discriminate].
  - destruct (splitWsFrom false s); discriminate.
Qed.

Lemma splitWsFrom_no_whitespace : forall s b,
  Forall (fun token => hasWhiteSpace token = false) (splitWsFrom b s).
Proof.
  intros s; induction s as [|a s IH]; intros b; simpl.
  - constructor; [reflexivity | constructor].
  - destruct (isWhiteSpace a) eqn:Ha.
    + destruct b; [apply IH | constructor; [reflexivity | apply IH]].
    + specialize (IH false). destruct (splitWsFrom false s) as [|p ps].
      * constructor; [simpl; rewrite Ha; reflexivity | constructor].
      * apply Forall_cons_iff in IH; destruct IH as [Hp Hps].
        constructor; [simpl; rewrite Ha; assumption | assumption].
Qed.

Lemma trimEnd_fixed_tail : forall a s,
  trimEnd (String a s) = String a s ->
  trimEnd s = s /\ (isWhiteSpace a = true -> s <> EmptyString).
Proof.
  intros a s. simpl. destruct (trimEnd s) as [|b t] eqn:Ht.
  - destruct (isWhiteSpace a); [discriminate|].
    intros H; injection H as <-. split; [reflexivity | discriminate].
  - intros H; injection H as <-. split; [reflexivity|].
    intros _; discriminate.
Qed.

Lemma splitWsFrom_tokens_nonempty : forall s,
  trimEnd s = s ->
  Forall (fun token => token <> EmptyString) (tl (splitWsFrom false s))
  /\ (s <> EmptyString ->
      Forall (fun token => token <> EmptyString) (splitWsFrom true s)).
Proof.
  intros s; induction s as [|a s IH]; intros Hfix.
  - split; [constructor | congruence].
  - destruct (trimEnd_fixed_tail a s Hfix) as [Hs Hws].
    destruct (IH Hs) as [IHtl IHrun]. simpl.
    destruct (isWhiteSpace a).
    + split; [|intros _]; apply IHrun; auto.
    + destruct (splitWsFrom false s) as [|p ps]; simpl in *.
      * split; [constructor | intros _; constructor; [discriminate | constructor]].
      * split; [assumption | intros _; constructor; [discriminate | assumption]].
Qed.

Lemma trimStart_head : forall s,
  trimStart s = EmptyString
  \/ exists a s', trimStart s = String a s' /\ isWhiteSpace a = false.
Proof.
  intros s; induction s as [|a s IH]; simpl; [auto|].
  destruct (isWhiteSpace a) eqn:Ha; [assumption|].
  right; exists a, s; auto.
Qed.

Lemma trimEnd_idempotent : forall s, trimEnd (trimEnd s) = trimEnd s.
Proof.
  intros s; induction s as [|a s IH]; simpl; [reflexivity|].
  destruct (trimEnd s) as [|b t] eqn:Ht.
  - destruct (isWhiteSpace a) eqn:Ha; simpl; [reflexivity|].
    rewrite Ha. reflexivity.
  - simpl in IH |- *. rewrite IH. reflexivity.
Qed.

Lemma trimEnd_head : forall a s,
  isWhiteSpace a = false -> exists t, trimEnd (String a s) = String a t.
Proof.
  intros a s Ha. simpl. destruct (trimEnd s) as [|b t].
  - rewrite Ha. eexists; reflexivity.
  - eexists; reflexivity.
Qed.

(** The trimmed text is empty or starts with a character that is not white
    space, and trimming its end again changes nothing. *)
Lemma trim_shape : forall s,
  trimEnd (trim s) = trim s
  /\ (trim s = EmptyString
      \/ exists a t, trim s = String a t /\ isWhiteSpace a = false).
Proof.
  intros s. unfold trim. split; [apply trimEnd_idempotent|].
  destruct (trimStart_head s) as [-> | [a [s' [-> Ha]]]]; [left; reflexivity|].
  right. destruct (trimEnd_head a s' Ha) as [t Ht].
  exists a, t; auto.
Qed.

(** X16. The tokens that the composer works on: there is at least one, none
    holds white space, and none is empty unless the input is empty or all
    white space, when the only token is the empty one. *)
Theorem tokens_shape : forall cronExpression,
  let tokens := splitWhitespace (trim cronExpression) in
  tokens <> []
  /\ Forall (fun token => hasWhiteSpace token = false) tokens
  /\ (trim cronExpression = EmptyString -> tokens = [EmptyString])
  /\ (trim cronExpression <> EmptyString -> Forall isToken tokens).
Proof.
  intros cronExpression tokens. subst tokens. unfold splitWhitespace.
  split; [apply splitWsFrom_nonempty|].
  split; [apply splitWsFrom_no_whitespace|].
  split; [intros ->; reflexivity|].
  intros Hne.
  destruct (trim_shape cronExpression) as [Hfix [Hempty | [a [t [Ht Ha]]]]];
    [congruence|].
  pose proof (splitWsFrom_no_whitespace (trim cronExpression) false) as Hws.
  destruct (splitWsFrom_tokens_nonempty _ Hfix) as [Htl _].
  rewrite Ht in *. simpl in *. rewrite Ha in *.
  destruct (splitWsFrom false t) as [|p ps]; simpl in *.
  - constructor; [split; [discriminate|] | constructor].
    apply Forall_cons_iff in Hws. apply Hws.
  - apply Forall_cons_iff in Hws; destruct Hws as [Hp Hps].
    constructor; [split; [discriminate | assumption]|].
    rewrite Forall_forall in Htl, Hps |- *. intros x Hx.
    split; [apply Htl | apply Hps]; assumption.
Qed.

Lemma tokens_shape_witness :
  Forall isToken (splitWhitespace (trim "  0 0  * * * ls  ")).
Proof.
  apply (tokens_shape "  0 0  * * * ls  "). discriminate.
Defined.

(** ** Joining tokens with spaces *)

Lemma append_empty_r : forall s : string, s ++ EmptyString = s.
Proof.
  intros s; induction s as [|a s IH]; simpl; [|rewrite IH]; reflexivity.
Qed.

Lemma trimEnd_token : forall t,
  hasWhiteSpace t = false -> trimEnd t = t.
Proof.
  intros t; induction t as [|a t IH]; simpl; intros H; [reflexivity|].
  apply orb_false_iff in H; destruct H as [Ha Ht].
  rewrite (IH Ht). destruct t; [rewrite Ha|]; reflexivity.
Qed.

Lemma trimEnd_app_fixed : forall x y,
  trimEnd y = y -> y <> EmptyString -> trimEnd (x ++ y) = x ++ y.
Proof.
  intros x y Hy Hne; induction x as [|a x IH]; simpl; [assumption|].
  rewrite IH. destruct (x ++ y) eqn:Hxy; [|reflexivity].
  destruct x; simpl in Hxy; [congruence | discriminate].
Qed.

Lemma splitWsFrom_token_app : forall t rest,
  hasWhiteSpace t = false ->
  splitWsFrom false (t ++ rest)
  = (t ++ hd EmptyString (splitWsFrom false rest))
      :: tl (splitWsFrom false rest).
Proof.
  intros t rest; induction t as [|a t IH]; simpl; intros H.
  - pose proof (splitWsFrom_nonempty rest false) as Hne.
    destruct (splitWsFrom false rest); [congruence | reflexivity].
  - apply orb_false_iff in H; destruct H as [Ha Ht].
    rewrite Ha, (IH Ht). reflexivity.
Qed.

Lemma join_tokens_head : forall tokens,
  tokens <> [] -> Forall isToken tokens ->
  exists a s, join " " tokens = String a s /\ isWhiteSpace a = false.
Proof.
  intros [|t rest] Hne Hall; [congruence|].
  apply Forall_cons_iff in Hall; destruct Hall as [[Ht Hws] _].
  destruct t as [|a t]; [congruence|].
  simpl in Hws. apply orb_false_iff in Hws; destruct Hws as [Ha _].
  destruct rest; simpl; eexists; eexists; split; try reflexivity; assumption.
Qed.

Lemma join_tokens_tokenize : forall tokens,
  tokens <> [] -> Forall isToken tokens ->
  splitWsFrom false (join " " tokens) = tokens
  /\ trimEnd (join " " tokens) = join " " tokens.
Proof.
  intros tokens; induction tokens as [|t rest IH]; intros Hne Hall;
    [congruence|].
  apply Forall_cons_iff in Hall; destruct Hall as [[Ht Hws] Hrest].
  destruct rest as [|q rest].
  - simpl join. split; [|apply trimEnd_token; assumption].
    rewrite <- (append_empty_r t) at 1.
    rewrite splitWsFrom_token_app by assumption. simpl.
    rewrite append_empty_r. reflexivity.
  - destruct (IH ltac:(discriminate) Hrest) as [IHsplit IHtrim].
    destruct (join_tokens_head (q :: rest) ltac:(discriminate) Hrest)
      as [a [s [Hjoin Ha]]].
    change (join " " (t :: q :: rest))
      with (t ++ String " " (join " " (q :: rest))).
    split.
    + rewrite splitWsFrom_token_app by assumption.
      cbn [splitWsFrom]. change (isWhiteSpace " ") with true. cbv iota.
      cbn [hd tl]. rewrite append_empty_r. f_equal.
      rewrite Hjoin in IHsplit |- *. simpl in IHsplit |- *.
      rewrite Ha in IHsplit |- *. assumption.
    + apply trimEnd_app_fixed.
      * change (String " " (join " " (q :: rest)))
          with (" " ++ join " " (q :: rest)).
        apply trimEnd_app_fixed; [assumption | rewrite Hjoin; discriminate].
      * discriminate.
Qed.

Lemma tokens_of_joined_fact : forall tokens,
  tokens <> [] -> Forall isToken tokens ->
  splitWhitespace (trim (join " " tokens)) = tokens.
Proof.
  intros tokens Hne Hall.
  destruct (join_tokens_tokenize tokens Hne Hall) as [Hsplit Htrim].
  destruct (join_tokens_head tokens Hne Hall) as [a [s [Hjoin Ha]]].
  assert (Hstart : trimStart (join " " tokens) = join " " tokens).
  { rewrite Hjoin. simpl. rewrite Ha. reflexivity. }
  unfold splitWhitespace, trim. rewrite Hstart, Htrim. assumption.
Qed.

(** X17. Joining tokens with single spaces and taking the tokens of the
    result gives the tokens back: what [main] joins from its arguments, when
    each argument is a token, is seen by the composer as those arguments. *)
Theorem tokens_of_joined : forall tokens,
  tokens <> [] -> Forall isToken tokens ->
  splitWhitespace (trim (join " " tokens)) = tokens.
Proof.
  exact tokens_of_joined_fact.
Qed.

Lemma tokens_of_joined_witness :
  splitWhitespace (trim (join " " ["0"; "0"; "*"; "*"; "*"; "ls"; "-l"]))
  = ["0"; "0"; "*"; "*"; "*"; "ls"; "-l"].
Proof.
  apply tokens_of_joined; [discriminate|].
  repeat constructor; discriminate.
Defined.

(** ** White space around the expression *)

Lemma allWhiteSpace_trimStart : forall s,
  allWhiteSpace s = true -> trimStart s = EmptyString.
Proof.
  intros s; induction s as [|a s IH]; simpl; intros H; [reflexivity|].
  apply andb_prop in H; destruct H as [Ha Hs]. rewrite Ha. auto.
Qed.

Lemma allWhiteSpace_trimEnd : forall s,
  allWhiteSpace s = true -> trimEnd s = EmptyString.
Proof.
  intros s; induction s as [|a s IH]; simpl; intros H; [reflexivity|].
  apply andb_prop in H; destruct H as [Ha Hs]. rewrite (IH Hs), Ha. reflexivity.
Qed.

Lemma trimStart_app_left : forall pre s,
  allWhiteSpace pre = true -> trimStart (pre ++ s) = trimStart s.
Proof.
  intros pre s; induction pre as [|a pre IH]; simpl; intros H; [reflexivity|].
  apply andb_prop in H; destruct H as [Ha Hpre]. rewrite Ha. auto.
Qed.

Lemma trimEnd_app_right : forall s post,
  allWhiteSpace post = true -> trimEnd (s ++ post) = trimEnd s.
Proof.
  intros s post Hpost; induction s as [|a s IH]; simpl.
  - apply allWhiteSpace_trimEnd; assumption.
  - rewrite IH. reflexivity.
Qed.

Lemma trimStart_app_right : forall s post,
  allWhiteSpace post = true ->
  trimStart (s ++ post)
  = if allWhiteSpace s then EmptyString else trimStart s ++ post.
Proof.
  intros s post Hpost; induction s as [|a s IH]; simpl.
  - apply allWhiteSpace_trimStart; assumption.
  - destruct (isWhiteSpace a); simpl; [assumption | reflexivity].
Qed.

Lemma trim_around : forall pre s post,
  allWhiteSpace pre = true -> allWhiteSpace post = true ->
  trim (pre ++ s ++ post) = trim s.
Proof.
  intros pre s post Hpre Hpost. unfold trim.
  rewrite trimStart_app_left by assumption.
  rewrite trimStart_app_right by assumption.
  destruct (allWhiteSpace s) eqn:Hs.
  - rewrite (allWhiteSpace_trimStart s Hs). reflexivity.
  - apply trimEnd_app_right; assumption.
Qed.

(** X18. White space before and after the expression is ignored: the
    composer gives the same report, or the same error, with and without
    it. *)
Theorem parseCronExpression_ignores_outer_whitespace :
  forall pre cronExpression post,
    allWhiteSpace pre = true -> allWhiteSpace post = true ->
    parseCronExpression (pre ++ cronExpression ++ post)
    = parseCronExpression cronExpression.
Proof.
  intros pre cronExpression post Hpre Hpost.
  unfold parseCronExpression, parseCronExpressionWith.
  rewrite trim_around by assumption. reflexivity.
Qed.

Lemma parseCronExpression_ignores_outer_whitespace_witness :
  parseCronExpression ("  " ++ "0 0 * * * ls" ++ " ")
  = parseCronExpression "0 0 * * * ls".
Proof.
  apply parseCronExpression_ignores_outer_whitespace; reflexivity.
Defined.

(** ** The report *)

(** With six tokens or more, the composer expands the first five in the
    order and with the windows of [FIELD_CONFIGS], and builds the report from
    the five results and the remaining tokens. *)
Lemma parseCronExpression_fields :
  forall cronExpression f0 f1 f2 f3 f4 c cmd,
    splitWhitespace (trim cronExpression) = f0 :: f1 :: f2 :: f3 :: f4 :: c :: cmd ->
    parseCronExpression cronExpression
    = (v0 <- parseField f0 0 59 ;;
       v1 <- parseField f1 0 23 ;;
       v2 <- parseField f2 1 31 ;;
       v3 <- parseField f3 1 12 ;;
       v4 <- parseField f4 0 6 ;;
       Ok (join newline
             [ fieldLine (mkFieldConfig "minute" 0 59) v0;
               fieldLine (mkFieldConfig "hour" 0 23) v1;
               fieldLine (mkFieldConfig "day of month" 1 31) v2;
               fieldLine (mkFieldConfig "month" 1 12) v3;
               fieldLine (mkFieldConfig "day of week" 0 6) v4;
               padEnd 14 "command" ++ join " " (c :: cmd) ])).
Proof.
  intros cronExpression f0 f1 f2 f3 f4 c cmd Htokens.
  unfold parseCronExpression, parseCronExpressionWith. rewrite Htokens.
  cbn [List.length Nat.ltb Nat.leb firstn skipn combine FIELD_CONFIGS
       formatFields fmin fmax name].
  destruct (parseField f0 0 59) as [v0|]; cbn [bind]; [|reflexivity].
  destruct (parseField f1 0 23) as [v1|]; cbn [bind]; [|reflexivity].
  destruct (parseField f2 1 31) as [v2|]; cbn [bind]; [|reflexivity].
  destruct (parseField f3 1 12) as [v3|]; cbn [bind]; [|reflexivity].
  destruct (parseField f4 0 6) as [v4|]; cbn [bind]; [|reflexivity].
  reflexivity.
Qed.

Lemma few_tokens_throw : forall cronExpression,
  (List.length (splitWhitespace (trim cronExpression)) < 6)%nat ->
  parseCronExpression cronExpression
  = Throw (FieldCountError (List.length (splitWhitespace (trim cronExpression)))).
Proof.
  intros cronExpression Hlt. unfold parseCronExpression, parseCronExpressionWith.
  destruct (Nat.ltb_spec (List.length (splitWhitespace (trim cronExpression))) 6);
    [reflexivity | lia].
Qed.

Lemma six_tokens : forall (tokens : list string),
  (6 <= List.length tokens)%nat ->
  exists f0 f1 f2 f3 f4 c cmd, tokens = f0 :: f1 :: f2 :: f3 :: f4 :: c :: cmd.
Proof.
  intros [|f0 [|f1 [|f2 [|f3 [|f4 [|c cmd]]]]]] H; simpl in H; try lia.
  repeat eexists.
Qed.

Lemma includes_app : forall c a b,
  includes c (a ++ b) = includes c a || includes c b.
Proof.
  intros c a b; induction a as [|x a IH]; simpl; [reflexivity|].
  destruct (Ascii.eqb x c); [reflexivity | assumption].
Qed.

Lemma includes_join : forall c sep pieces,
  includes c sep = false ->
  Forall (fun piece => includes c piece = false) pieces ->
  includes c (join sep pieces) = false.
Proof.
  intros c sep pieces Hsep; induction pieces as [|p rest IH]; intros Hall;
    [reflexivity|].
  apply Forall_cons_iff in Hall; destruct Hall as [Hp Hrest].
  destruct rest as [|q rest]; [assumption|].
  change (join sep (p :: q :: rest)) with (p ++ sep ++ join sep (q :: rest)).
  rewrite !includes_app, Hp, Hsep, (IH Hrest). reflexivity.
Qed.

Lemma token_no_whitespace_char : forall c t,
  isWhiteSpace c = true -> hasWhiteSpace t = false -> includes c t = false.
Proof.
  intros c t Hc; induction t as [|a t IH]; simpl; intros H; [reflexivity|].
  apply orb_false_iff in H; destruct H as [Ha Ht].
  destruct (Ascii.eqb_spec a c) as [-> | _]; [congruence | auto].
Qed.

Lemma fieldLine_one_line : forall config values,
  includes (ascii_of_nat 10) (name config) = false ->
  includes (ascii_of_nat 10) (fieldLine config values) = false.
Proof.
  intros config values Hname. unfold fieldLine, padEnd.
  rewrite !includes_app, Hname.
  assert (Hsp : forall n, includes (ascii_of_nat 10) (spaces n) = false).
  { intros n; induction n; simpl; [reflexivity | assumption]. }
  rewrite Hsp. simpl.
  apply includes_join; [reflexivity|].
  rewrite Forall_forall. intros piece Hin. apply in_map_iff in Hin.
  destruct Hin as [n [<- _]]. apply toString_free; [reflexivity | discriminate].
Qed.

(** X19. A report always has exactly six lines: splitting it at the
    newlines gives the five field lines, in the order minute, hour, day of
    month, month, day of week, each the padded label followed by the values
    that [parseField] returns for that token in that field's window, and
    then the command line, the padded label followed by the remaining tokens
    joined by single spaces. *)
Theorem parseCronExpression_report :
  forall cronExpression report,
    parseCronExpression cronExpression = Ok report ->
    exists f0 f1 f2 f3 f4 c cmd v0 v1 v2 v3 v4,
      splitWhitespace (trim cronExpression) = f0 :: f1 :: f2 :: f3 :: f4 :: c :: cmd
      /\ parseField f0 0 59 = Ok v0
      /\ parseField f1 0 23 = Ok v1
      /\ parseField f2 1 31 = Ok v2
      /\ parseField f3 1 12 = Ok v3
      /\ parseField f4 0 6 = Ok v4
      /\ split (ascii_of_nat 10) report
         = [ fieldLine (mkFieldConfig "minute" 0 59) v0;
             fieldLine (mkFieldConfig "hour" 0 23) v1;
             fieldLine (mkFieldConfig "day of month" 1 31) v2;
             fieldLine (mkFieldConfig "month" 1 12) v3;
             fieldLine (mkFieldConfig "day of week" 0 6) v4;
             padEnd 14 "command" ++ join " " (c :: cmd) ].
Proof.
  intros cronExpression report Hrun.
  destruct (Nat.ltb_spec (List.length (splitWhitespace (trim cronExpression))) 6)
    as [Hlt | Hge].
  - rewrite (few_tokens_throw cronExpression Hlt) in Hrun. discriminate.
  - destruct (six_tokens _ Hge) as [f0 [f1 [f2 [f3 [f4 [c [cmd Htokens]]]]]]].
    rewrite (parseCronExpression_fields _ _ _ _ _ _ _ _ Htokens) in Hrun.
    destruct (parseField f0 0 59) as [v0|] eqn:H0; cbn [bind] in Hrun; [|discriminate].
    destruct (parseField f1 0 23) as [v1|] eqn:H1; cbn [bind] in Hrun; [|discriminate].
    destruct (parseField f2 1 31) as [v2|] eqn:H2; cbn [bind] in Hrun; [|discriminate].
    destruct (parseField f3 1 12) as [v3|] eqn:H3; cbn [bind] in Hrun; [|discriminate].
    destruct (parseField f4 0 6) as [v4|] eqn:H4; cbn [bind] in Hrun; [|discriminate].
    assert (Hrep : report
                   = join newline
                       [ fieldLine (mkFieldConfig "minute" 0 59) v0;
                         fieldLine (mkFieldConfig "hour" 0 23) v1;
                         fieldLine (mkFieldConfig "day of month" 1 31) v2;
                         fieldLine (mkFieldConfig "month" 1 12) v3;
                         fieldLine (mkFieldConfig "day of week" 0 6) v4;
                         padEnd 14 "command" ++ join " " (c :: cmd) ])
      by congruence.
    exists f0, f1, f2, f3, f4, c, cmd, v0, v1, v2, v3, v4.
    repeat (split; [assumption || reflexivity|]).
    rewrite Hrep. unfold newline.
    apply (proj2 split_join_inverse_fact); [discriminate|].
    repeat (constructor; [apply fieldLine_one_line; reflexivity|]).
    constructor; [|constructor].
    rewrite includes_app.
    change (includes (ascii_of_nat 10) (padEnd 14 "command")) with false.
    cbn [orb].
    apply includes_join; [reflexivity|].
    pose proof (splitWsFrom_no_whitespace (trim cronExpression) false) as Hws.
    unfold splitWhitespace in Htokens. rewrite Htokens in Hws.
    do 5 (apply Forall_cons_iff in Hws; destruct Hws as [_ Hws]).
    rewrite Forall_forall in Hws |- *. intros t Ht.
    apply token_no_whitespace_char; [reflexivity | apply Hws; assumption].
Qed.

Lemma parseCronExpression_report_witness :
  exists f0 f1 f2 f3 f4 c cmd v0 v1 v2 v3 v4,
    splitWhitespace (trim "0 9 * * 1-5 /bin/backup now")
    = f0 :: f1 :: f2 :: f3 :: f4 :: c :: cmd
    /\ parseField f0 0 59 = Ok v0
    /\ parseField f1 0 23 = Ok v1
    /\ parseField f2 1 31 = Ok v2
    /\ parseField f3 1 12 = Ok v3
    /\ parseField f4 0 6 = Ok v4
    /\ split (ascii_of_nat 10)
         (join newline
            [ "minute        0";
              "hour          9";
              "day of month  1 2 3 4 5 6 7 8 9 10 11 12 13 14 15 16 17 18 19 20 21 22 23 24 25 26 27 28 29 30 31";
              "month         1 2 3 4 5 6 7 8 9 10 11 12";
              "day of week   1 2 3 4 5";
              "command       /bin/backup now" ])
       = [ fieldLine (mkFieldConfig "minute" 0 59) v0;
           fieldLine (mkFieldConfig "hour" 0 23) v1;
           fieldLine (mkFieldConfig "day of month" 1 31) v2;
           fieldLine (mkFieldConfig "month" 1 12) v3;
           fieldLine (mkFieldConfig "day of week" 0 6) v4;
           padEnd 14 "command" ++ join " " (c :: cmd) ].
Proof.
  apply (parseCronExpression_report "0 9 * * 1-5 /bin/backup now").
  vm_compute. reflexivity.
Defined.

(** ** Errors of the composer *)

Lemma processPart_not_field_count : forall min max values part e,
  processPart min max values part = Throw e -> kind e <> MalformedExpression.
Proof.
  intros min max values part e Hrun.
  destruct (form_cases part) as [Hf | [Hf | [Hf | Hf]]].
  - rewrite processPart_step in Hrun by assumption.
    destruct (parseInt (stepStrOf part)) as [step|];
      [|injection Hrun as <-; discriminate].
    destruct (step <=? 0); [injection Hrun as <-; discriminate|].
    destruct (stepInterval min max (rangeOf part)) as [bounds|e'] eqn:Hint;
      simpl in Hrun; [discriminate|].
    injection Hrun as <-.
    destruct (stepInterval_Throw _ _ _ _ Hint) as [-> | ->]; discriminate.
  - rewrite processPart_range in Hrun by assumption.
    destruct (rangeBounds part) as [[start_|] [end_|]];
      try (injection Hrun as <-; discriminate).
    destruct (start_ >? end_); [injection Hrun as <-|]; discriminate.
  - rewrite processPart_wildcard in Hrun by assumption. discriminate.
  - rewrite processPart_single in Hrun by assumption.
    destruct (parseInt part) as [value|]; [|injection Hrun as <-; discriminate].
    destruct ((value >=? min) && (value <=? max));
      [discriminate | injection Hrun as <-; discriminate].
Qed.

Lemma parseField_not_field_count : forall expression min max e,
  parseField expression min max = Throw e -> kind e <> MalformedExpression.
Proof.
  intros expression min max e Hrun. unfold parseField in Hrun.
  destruct (processParts min max NumberSet.empty (split "," expression))
    as [values|e'] eqn:Hparts; simpl in Hrun; [discriminate|].
  injection Hrun as <-.
  destruct (processParts_Throw _ _ _ _ _ Hparts) as [part [vs [_ Hp]]].
  apply (processPart_not_field_count min max vs part); assumption.
Qed.

(** The field at a given position: its token and configuration are read off
    the lists, its outcome is among the hypotheses. *)
Ltac fieldAt :=
  eexists; eexists;
  split; [reflexivity | split; [reflexivity | eassumption]].

(** X20. Where an error of the composer comes from. It is the
    malformed-expression error exactly when there are fewer than six tokens,
    and then it carries their number. With six tokens or more it is the
    error of one of the five fields, the first that fails in the order
    minute, hour, day of month, month, day of week: every field before it
    parses. *)
Theorem parseCronExpression_error_origin :
  forall cronExpression e,
    parseCronExpression cronExpression = Throw e ->
    let tokens := splitWhitespace (trim cronExpression) in
    (kind e = MalformedExpression <-> (List.length tokens < 6)%nat)
    /\ ((List.length tokens < 6)%nat -> e = FieldCountError (List.length tokens))
    /\ ((6 <= List.length tokens)%nat ->
        exists i,
          (i < 5)%nat
          /\ fieldOutcome tokens i (Throw e)
          /\ forall j, (j < i)%nat -> exists v, fieldOutcome tokens j (Ok v)).
Proof.
  intros cronExpression e Hrun tokens.
  destruct (Nat.ltb_spec (List.length tokens) 6) as [Hlt | Hge].
  - rewrite (few_tokens_throw cronExpression Hlt) in Hrun.
    injection Hrun as <-. fold tokens.
    split; [split; auto|]. split; [reflexivity | lia].
  - destruct (six_tokens _ Hge) as [f0 [f1 [f2 [f3 [f4 [c [cmd Htokens]]]]]]].
    rewrite (parseCronExpression_fields _ _ _ _ _ _ _ _ Htokens) in Hrun.
    fold tokens in Htokens.
    assert (Hfield : exists i,
               (i < 5)%nat
               /\ fieldOutcome tokens i (Throw e)
               /\ forall j, (j < i)%nat -> exists v, fieldOutcome tokens j (Ok v)).
    { rewrite Htokens. unfold fieldOutcome.
      destruct (parseField f0 0 59) as [v0|e0] eqn:H0; cbn [bind] in Hrun.
      2:{ injection Hrun as <-. exists 0%nat. split; [lia|]. split.
          - fieldAt.
          - intros j Hj; lia. }
      destruct (parseField f1 0 23) as [v1|e1] eqn:H1; cbn [bind] in Hrun.
      2:{ injection Hrun as <-. exists 1%nat. split; [lia|]. split.
          - fieldAt.
          - intros [|j] Hj; [|lia]. eexists; fieldAt. }
      destruct (parseField f2 1 31) as [v2|e2] eqn:H2; cbn [bind] in Hrun.
      2:{ injection Hrun as <-. exists 2%nat. split; [lia|]. split.
          - fieldAt.
          - intros [|[|j]] Hj; [| |lia]; eexists; fieldAt. }
      destruct (parseField f3 1 12) as [v3|e3] eqn:H3; cbn [bind] in Hrun.
      2:{ injection Hrun as <-. exists 3%nat. split; [lia|]. split.
          - fieldAt.
          - intros [|[|[|j]]] Hj; [| | |lia]; eexists; fieldAt. }
      destruct (parseField f4 0 6) as [v4|e4] eqn:H4; cbn [bind] in Hrun;
        [discriminate|].
      injection Hrun as <-. exists 4%nat. split; [lia|]. split.
      - fieldAt.
      - intros [|[|[|[|j]]]] Hj; [| | | |lia]; eexists; fieldAt. }
    split; [|split; [lia | intros _; exact Hfield]].
    split; [|lia].
    intros Hkind. exfalso.
    destruct Hfield as [i [_ [[field [config [_ [_ Hthrow]]]] _]]].
    apply (parseField_not_field_count _ _ _ _ Hthrow). assumption.
Qed.

Lemma parseCronExpression_error_origin_witness :
  exists i,
    (i < 5)%nat
    /\ fieldOutcome (splitWhitespace (trim "0 24 32 * * ls")) i
         (Throw (ValueBoundsError 24 0 23))
    /\ forall j, (j < i)%nat ->
         exists v, fieldOutcome (splitWhitespace (trim "0 24 32 * * ls")) j (Ok v).
Proof.
  apply (parseCronExpression_error_origin "0 24 32 * * ls"
           (ValueBoundsError 24 0 23)).
  - reflexivity.
  - vm_compute. lia.
Defined.

(** * Negative numbers *)

Lemma trimStart_includes : forall c s,
  includes c s = false -> includes c (trimStart s) = false.
Proof.
  intros c s; induction s as [|a s IH]; simpl; intros H; [reflexivity|].
  destruct (Ascii.eqb a c) eqn:Hac; [discriminate|].
  destruct (isWhiteSpace a); [auto | simpl; rewrite Hac; assumption].
Qed.

Lemma trimStart_idempotent : forall s, trimStart (trimStart s) = trimStart s.
Proof.
  intros s; induction s as [|a s IH]; simpl; [reflexivity|].
  destruct (isWhiteSpace a) eqn:Ha; [assumption|].
  simpl. rewrite Ha. reflexivity.
Qed.

Lemma parseInt_trimStart : forall s, parseInt (trimStart s) = parseInt s.
Proof.
  intros s. unfold parseInt. rewrite trimStart_idempotent. reflexivity.
Qed.

Lemma parseInt_no_hyphen : forall s v,
  includes "-" s = false -> parseInt s = Some v -> 0 <= v.
Proof.
  intros s v Hfree Hparse. rewrite <- parseInt_trimStart in Hparse.
  pose proof (trimStart_includes "-" s Hfree) as Hfree'.
  destruct (trimStart_head s) as [Hempty | [a [s' [Hs Ha]]]].
  - rewrite Hempty in Hparse. discriminate.
  - rewrite Hs in Hparse, Hfree'. simpl in Hfree'.
    destruct (Ascii.eqb a "-") eqn:Hminus; [discriminate|].
    rewrite parseInt_cons, Hminus in Hparse by assumption.
    destruct (Ascii.eqb a "+").
    + apply (digits_nonneg s' false 0 v); [lia | assumption].
    + apply (digits_nonneg (String a s') false 0 v); [lia | assumption].
Qed.

(** X21. Negative numbers can only be written as single values. The bounds
    of a range, plain or inside a step expression, are never negative when
    they parse; and a step expression that starts with a hyphen always fails,
    with the invalid-step or the invalid-range error. *)
Theorem negative_only_as_single_value :
  (forall s start_ end_,
     rangeBounds s = (Some start_, Some end_) -> 0 <= start_ /\ 0 <= end_)
  /\ (forall part min max values,
        isStepForm part = true ->
        indexOf "-" part = 0 ->
        failsWith (processPart min max values part) InvalidStep
        \/ failsWith (processPart min max values part) InvalidRange).
Proof.
  split.
  - intros s start_ end_ Hb. unfold rangeBounds in Hb.
    pose proof (split_pieces_free "-" s) as Hfree.
    destruct (split "-" s) as [|a [|b rest]]; try discriminate.
    apply Forall_cons_iff in Hfree; destruct Hfree as [Ha Hfree].
    apply Forall_cons_iff in Hfree; destruct Hfree as [Hb' _].
    injection Hb as Hpa Hpb.
    split; [apply (parseInt_no_hyphen a) | apply (parseInt_no_hyphen b)];
      assumption.
  - intros part min max values Hform Hindex.
    destruct (indexOf_zero _ _ Hindex) as [s' ->].
    rewrite processPart_step by assumption.
    destruct (parseInt (stepStrOf (String "-" s'))) as [step|].
    + destruct (step <=? 0).
      * left. eexists; split; reflexivity.
      * right. rewrite rangeOf_cons by reflexivity.
        unfold stepInterval, rangeBounds. cbn [String.eqb Ascii.eqb Bool.eqb].
        cbn [includes split]. change (Ascii.eqb "-" "-") with true. cbv iota.
        pose proof (split_nonempty "-" (rangeOf s')) as Hne.
        destruct (split "-" (rangeOf s')) as [|b rest]; [congruence|].
        change (parseInt "") with (@None Z). cbn [bind].
        eexists; split; reflexivity.
    + left. eexists; split; reflexivity.
Qed.

Lemma negative_only_as_single_value_witness :
  (0 <= 10 /\ 0 <= 20)
  /\ (failsWith (processPart 0 59 [] "-5/2") InvalidStep
      \/ failsWith (processPart 0 59 [] "-5/2") InvalidRange).
Proof.
  destruct negative_only_as_single_value as [Hbounds Hstep].
  split.
  - apply (Hbounds "10-20" 10 20). reflexivity.
  - apply (Hstep "-5/2" 0 59 []); reflexivity.
Defined.

(** * Properties of main *)

(** X22. What [main] writes and how it exits. Without arguments it writes
    the three usage lines on standard error and exits with status 1. With
    arguments, when the arguments joined by single spaces parse, it writes the
    report, and nothing else, on standard output and exits with status 0;
    when they throw, it writes the message after
    ["Error parsing cron expression: "] on standard error, nothing on
    standard output, and exits with status 1. So with six token arguments or
    more whose first five parse in their fields' windows, the six-line report
    is written and the status is 0. A line on standard output is always the
    report of a successful parse. Passing the expression as one argument or
    as several makes no difference. *)
Theorem main_exit_status :
  main []
  = ([ ConsoleError "Error: No cron expression provided";
       ConsoleError ("Usage: cron-parser " ++ doubleQuote
                       ++ "<minute> <hour> <day> <month> <day-of-week> <command>"
                       ++ doubleQuote);
       ConsoleError ("Example: cron-parser " ++ doubleQuote
                       ++ "*/15 0 1,15 * 1-5 /usr/bin/find" ++ doubleQuote) ], 1)
  /\ (forall args report,
        args <> [] ->
        parseCronExpression (join " " args) = Ok report ->
        main args = ([ConsoleLog report], 0))
  /\ (forall args e,
        args <> [] ->
        parseCronExpression (join " " args) = Throw e ->
        main args
        = ([ConsoleError ("Error parsing cron expression: " ++ message e)], 1))
  /\ (forall f0 f1 f2 f3 f4 c cmd v0 v1 v2 v3 v4,
        Forall isToken (f0 :: f1 :: f2 :: f3 :: f4 :: c :: cmd) ->
        parseField f0 0 59 = Ok v0 ->
        parseField f1 0 23 = Ok v1 ->
        parseField f2 1 31 = Ok v2 ->
        parseField f3 1 12 = Ok v3 ->
        parseField f4 0 6 = Ok v4 ->
        main (f0 :: f1 :: f2 :: f3 :: f4 :: c :: cmd)
        = ([ConsoleLog
              (join newline
                 [ fieldLine (mkFieldConfig "minute" 0 59) v0;
                   fieldLine (mkFieldConfig "hour" 0 23) v1;
                   fieldLine (mkFieldConfig "day of month" 1 31) v2;
                   fieldLine (mkFieldConfig "month" 1 12) v3;
                   fieldLine (mkFieldConfig "day of week" 0 6) v4;
                   padEnd 14 "command" ++ join " " (c :: cmd) ])], 0))
  /\ (forall args report,
        In (ConsoleLog report) (fst (main args)) ->
        main args = ([ConsoleLog report], 0)
        /\ parseCronExpression (join " " args) = Ok report)
  /\ (forall args, args <> [] -> main args = main [join " " args]).
Proof.
  assert (Hmain : forall a rest,
            main (a :: rest)
            = match parseCronExpression (join " " (a :: rest)) with
              | Ok result_ => ([ConsoleLog result_], 0)
              | Throw error =>
                  ([ConsoleError ("Error parsing cron expression:" ++ " "
                                    ++ message error)], 1)
              end) by reflexivity.
  assert (Hok : forall args report,
            args <> [] ->
            parseCronExpression (join " " args) = Ok report ->
            main args = ([ConsoleLog report], 0)).
  { intros [|a rest] report Hne Hrun; [congruence|].
    rewrite Hmain, Hrun. reflexivity. }
  split; [reflexivity|].
  split; [exact Hok|]. split; [|split; [|split]].
  - intros [|a rest] e Hne Hrun; [congruence|].
    rewrite Hmain, Hrun. reflexivity.
  - intros f0 f1 f2 f3 f4 c cmd v0 v1 v2 v3 v4 Htokens H0 H1 H2 H3 H4.
    apply Hok; [discriminate|].
    rewrite (parseCronExpression_fields _ f0 f1 f2 f3 f4 c cmd).
    + rewrite H0, H1, H2, H3, H4. reflexivity.
    + apply tokens_of_joined_fact; [discriminate | assumption].
  - intros [|a rest] report Hin.
    + simpl in Hin. destruct Hin as [H | [H | [H | []]]]; discriminate.
    + rewrite Hmain in Hin |- *.
      destruct (parseCronExpression (join " " (a :: rest))) as [r|e];
        simpl in Hin; destruct Hin as [H | []]; [|discriminate].
      injection H as <-. split; reflexivity.
  - intros [|a rest] Hne; [congruence|]. reflexivity.
Qed.

Lemma main_exit_status_witness :
  main ["0"; "9"; "*"; "*"; "1-5"; "/bin/backup"; "now"]
  = ([ConsoleLog
        (join newline
           [ fieldLine (mkFieldConfig "minute" 0 59) [0];
             fieldLine (mkFieldConfig "hour" 0 23) [9];
             fieldLine (mkFieldConfig "day of month" 1 31) (ascending 1 31);
             fieldLine (mkFieldConfig "month" 1 12) (ascending 1 12);
             fieldLine (mkFieldConfig "day of week" 0 6) [1; 2; 3; 4; 5];
             padEnd 14 "command" ++ join " " ["/bin/backup"; "now"] ])], 0)
  /\ main ["0"; "24"; "*"; "*"; "*"; "ls"]
     = ([ConsoleError ("Error parsing cron expression: "
                         ++ message (ValueBoundsError 24 0 23))], 1)
  /\ main ["0"; "0"; "*"; "*"; "*"; "ls"]
     = main [join " " ["0"; "0"; "*"; "*"; "*"; "ls"]].
Proof.
  destruct main_exit_status as [_ [_ [Hthrow [Hfields [_ Hone]]]]].
  split; [|split].
  - apply (Hfields "0" "9" "*" "*" "1-5" "/bin/backup" ["now"]);
      try reflexivity.
    repeat constructor; discriminate.
  - apply (Hthrow ["0"; "24"; "*"; "*"; "*"; "ls"]); [discriminate | reflexivity].
  - apply (Hone ["0"; "0"; "*"; "*"; "*"; "ls"]). discriminate.
Defined.

(** X23. With arguments that are tokens, [main] sees exactly them: fewer
    than six of them end with status 1 and the message that tells their
    number. *)
Theorem main_too_few_arguments : forall args,
  args <> [] -> Forall isToken args -> (List.length args < 6)%nat ->
  main args
  = ([ConsoleError ("Error parsing cron expression: "
                      ++ message (FieldCountError (List.length args)))], 1).
Proof.
  intros args Hne Hall Hlen.
  assert (Hrun : parseCronExpression (join " " args)
                 = Throw (FieldCountError (List.length args))).
  { pose proof (few_tokens_throw (join " " args)) as H.
    rewrite (tokens_of_joined_fact args Hne Hall) in H. apply H; assumption. }
  destruct args as [|a rest]; [congruence|].
  unfold main. rewrite Hrun. reflexivity.
Qed.

Lemma main_too_few_arguments_witness :
  main ["*"; "*"; "*"; "*"]
  = ([ConsoleError ("Error parsing cron expression: "
                      ++ message (FieldCountError 4))], 1).
Proof.
  apply (main_too_few_arguments ["*"; "*"; "*"; "*"]).
  - discriminate.
  - repeat constructor; discriminate.
  - simpl. lia.
Defined.

(** * Further edge behaviour of the field expander *)

Lemma indexOf_app : forall c a rest,
  includes c a = false ->
  indexOf c (a ++ String c rest) = Z.of_nat (String.length a).
Proof.
  intros c a rest; induction a as [|x a IH]; intros H.
  - simpl. rewrite Ascii.eqb_refl. reflexivity.
  - simpl in H. destruct (Ascii.eqb x c) eqn:Hxc; [discriminate|].
    cbn [append indexOf String.length]. rewrite Hxc, (IH H).
    destruct (Z.ltb_spec (Z.of_nat (String.length a)) 0); lia.
Qed.

Lemma includes_sep : forall c a rest, includes c (a ++ String c rest) = true.
Proof.
  intros c a rest. rewrite includes_app. simpl. rewrite Ascii.eqb_refl.
  apply orb_true_r.
Qed.

(** X24. A step of 1 changes nothing for the wildcard and for a valid
    range: ["*/1"] gives what ["*"] gives, and [range/1] what [range]
    gives. *)
Theorem step_of_one :
  (forall min max, parseField "*/1" min max = parseField "*" min max)
  /\ (forall range min max start_ end_,
        includes "," range = false ->
        isRangeForm range = true ->
        rangeBounds range = (Some start_, Some end_) ->
        start_ <= end_ ->
        parseField (range ++ "/1") min max = parseField range min max).
Proof.
  assert (Hsame : forall part1 part2 min max (P1 P2 : Z -> Prop),
            emits part1 min max P1 -> emits part2 min max P2 ->
            includes "," part1 = false -> includes "," part2 = false ->
            (forall x, P1 x <-> P2 x) ->
            parseField part1 min max = parseField part2 min max).
  { intros part1 part2 min max P1 P2 [_ H1] [_ H2] Hc1 Hc2 Heq.
    destruct (H1 Hc1) as [r1 [Hr1 Hm1]]. destruct (H2 Hc2) as [r2 [Hr2 Hm2]].
    rewrite Hr1, Hr2. f_equal.
    destruct (parseField_result_shape _ _ _ _ Hr1) as [_ [Hs1 _]].
    destruct (parseField_result_shape _ _ _ _ Hr2) as [_ [Hs2 _]].
    apply increasing_unique; [assumption | assumption |].
    intros x. rewrite Hm1, Hm2. apply Heq. }
  assert (Hvisited : forall lo hi min max x,
            visited lo hi 1 min max x <-> lo <= x <= hi /\ min <= x <= max).
  { intros lo hi min max x. unfold visited. split.
    - intros [[k [Hk Hx]] [Hhi Hw]]. lia.
    - intros [Hx Hw]. split; [exists (x - lo); lia | lia]. }
  split.
  - intros min max.
    apply (Hsame "*/1" "*" min max (visited min max 1 min max)
             (fun x => min <= x <= max)).
    + apply (step_form_emits "*/1" min max 1 min max); reflexivity.
    + apply wildcard_emits.
    + reflexivity.
    + reflexivity.
    + intros x. rewrite Hvisited. lia.
  - intros range min max start_ end_ Hc Hform Hb Hle.
    assert (Hparts : isRangeForm range = true) by assumption.
    unfold isRangeForm in Hparts.
    apply andb_prop in Hparts; destruct Hparts as [Hslash Hhyphen].
    apply negb_true_iff in Hslash.
    apply andb_prop in Hhyphen; destruct Hhyphen as [Hhyphen _].
    assert (Hpieces : stepPieces (range ++ "/1") = (range, "1")).
    { apply (stepPieces_text range "1"); [assumption | reflexivity]. }
    apply (Hsame (range ++ "/1") range min max (visited start_ end_ 1 min max)
             (fun x => start_ <= x <= end_ /\ min <= x <= max)).
    + apply (step_form_emits (range ++ "/1") min max 1 start_ end_).
      * apply (includes_sep "/" range "1").
      * unfold stepStrOf. rewrite Hpieces. reflexivity.
      * lia.
      * unfold rangeOf. rewrite Hpieces. simpl fst.
        unfold stepInterval. rewrite Hhyphen, Hb.
        destruct (String.eqb_spec range "*") as [-> | _]; [discriminate|].
        reflexivity.
    + apply range_form_emits; assumption.
    + change (range ++ "/1") with (range ++ String "/" "1").
      rewrite includes_app, Hc. reflexivity.
    + assumption.
    + apply Hvisited.
Qed.

Lemma step_of_one_witness :
  parseField ("10-20" ++ "/1") 0 59 = parseField "10-20" 0 59.
Proof.
  apply (proj2 step_of_one "10-20" 0 59 10 20);
    [reflexivity | reflexivity | reflexivity | lia].
Defined.

(** X25. Pieces beyond the second are ignored. In a step expression only
    the text before the first slash and the text between the first and the
    second slash count: [a/b/c] gives what [a/b] gives. In a range only the
    texts before the first and between the first and the second hyphen are
    read as bounds: when they parse, [a-b-c] gives what [a-b] gives. *)
Theorem extra_pieces_ignored :
  (forall a b c min max,
     includes "/" a = false -> includes "/" b = false ->
     includes "," a = false -> includes "," b = false ->
     includes "," c = false ->
     parseField (a ++ "/" ++ b ++ "/" ++ c) min max
     = parseField (a ++ "/" ++ b) min max)
  /\ (forall a b c min max start_ end_,
        a <> EmptyString ->
        includes "-" a = false -> includes "-" b = false ->
        includes "/" a = false -> includes "/" b = false ->
        includes "/" c = false ->
        includes "," a = false -> includes "," b = false ->
        includes "," c = false ->
        parseInt a = Some start_ -> parseInt b = Some end_ ->
        parseField (a ++ "-" ++ b ++ "-" ++ c) min max
        = parseField (a ++ "-" ++ b) min max).
Proof.
  split.
  - intros a b c min max Ha Hb Hca Hcb Hcc.
    assert (Hlong : stepPieces (a ++ "/" ++ b ++ "/" ++ c) = (a, b)).
    { unfold stepPieces.
      change (a ++ "/" ++ b ++ "/" ++ c) with (a ++ String "/" (b ++ String "/" c)).
      rewrite split_at_first by assumption.
      rewrite split_at_first by assumption. reflexivity. }
    pose proof (stepPieces_text a b Ha Hb) as Hshort.
    assert (Hc1 : includes "," (a ++ "/" ++ b ++ "/" ++ c) = false).
    { change (a ++ "/" ++ b ++ "/" ++ c) with (a ++ String "/" (b ++ String "/" c)).
      rewrite includes_app, Hca. simpl. rewrite includes_app, Hcb. simpl.
      assumption. }
    assert (Hc2 : includes "," (a ++ "/" ++ b) = false).
    { change (a ++ "/" ++ b) with (a ++ String "/" b).
      rewrite includes_app, Hca. simpl. assumption. }
    rewrite !parseField_single by assumption.
    rewrite !processPart_step
      by (unfold isStepForm; apply (includes_sep "/" a)).
    unfold stepStrOf, rangeOf. rewrite Hlong, Hshort. reflexivity.
  - intros a b c min max start_ end_ Hne Ha Hb Hsa Hsb Hsc Hca Hcb Hcc Hpa Hpb.
    assert (Hlong : rangeBounds (a ++ "-" ++ b ++ "-" ++ c) = (Some start_, Some end_)).
    { unfold rangeBounds.
      change (a ++ "-" ++ b ++ "-" ++ c) with (a ++ String "-" (b ++ String "-" c)).
      rewrite split_at_first by assumption.
      rewrite split_at_first by assumption. rewrite Hpa, Hpb. reflexivity. }
    assert (Hshort : rangeBounds (a ++ "-" ++ b) = (Some start_, Some end_)).
    { rewrite (rangeBounds_text a b Ha Hb), Hpa, Hpb. reflexivity. }
    assert (Hform : forall rest,
              includes "/" rest = false ->
              isRangeForm (a ++ String "-" rest) = true).
    { intros rest Hrest. unfold isRangeForm.
      rewrite includes_app, Hsa. simpl includes. rewrite Hrest. simpl negb.
      rewrite includes_sep, indexOf_app by assumption.
      destruct a; [congruence|]. reflexivity. }
    assert (Hc1 : includes "," (a ++ "-" ++ b ++ "-" ++ c) = false).
    { change (a ++ "-" ++ b ++ "-" ++ c) with (a ++ String "-" (b ++ String "-" c)).
      rewrite includes_app, Hca. simpl. rewrite includes_app, Hcb. simpl.
      assumption. }
    assert (Hc2 : includes "," (a ++ "-" ++ b) = false).
    { change (a ++ "-" ++ b) with (a ++ String "-" b).
      rewrite includes_app, Hca. simpl. assumption. }
    rewrite !parseField_single by assumption.
    rewrite (processPart_range min max _ (a ++ "-" ++ b ++ "-" ++ c)).
    + rewrite (processPart_range min max _ (a ++ "-" ++ b)).
      * rewrite Hlong, Hshort. reflexivity.
      * apply (Hform b); assumption.
    + apply (Hform (b ++ String "-" c)).
      rewrite includes_app, Hsb. simpl. assumption.
Qed.

Lemma extra_pieces_ignored_witness :
  parseField ("1-9" ++ "/" ++ "2" ++ "/" ++ "x") 0 59
  = parseField ("1-9" ++ "/" ++ "2") 0 59
  /\ parseField ("1" ++ "-" ++ "3" ++ "-" ++ "9") 0 59
     = parseField ("1" ++ "-" ++ "3") 0 59.
Proof.
  destruct extra_pieces_ignored as [Hstep Hrange].
  split.
  - apply (Hstep "1-9" "2" "x" 0 59); reflexivity.
  - apply (Hrange "1" "3" "9" 0 59 1 3); try reflexivity. discriminate.
Defined.

(** X26. An input is accepted exactly when it has six tokens or more and
    each of the first five parses in the window of its field; what the
    tokens of the command are plays no part. *)
Theorem parseCronExpression_succeeds_iff :
  forall cronExpression,
    (exists report, parseCronExpression cronExpression = Ok report)
    <-> exists f0 f1 f2 f3 f4 c cmd v0 v1 v2 v3 v4,
          splitWhitespace (trim cronExpression)
          = f0 :: f1 :: f2 :: f3 :: f4 :: c :: cmd
          /\ parseField f0 0 59 = Ok v0
          /\ parseField f1 0 23 = Ok v1
          /\ parseField f2 1 31 = Ok v2
          /\ parseField f3 1 12 = Ok v3
          /\ parseField f4 0 6 = Ok v4.
Proof.
  intros cronExpression. split.
  - intros [report Hrun].
    destruct (Nat.ltb_spec (List.length (splitWhitespace (trim cronExpression))) 6)
      as [Hlt | Hge].
    + rewrite (few_tokens_throw cronExpression Hlt) in Hrun. discriminate.
    + destruct (six_tokens _ Hge) as [f0 [f1 [f2 [f3 [f4 [c [cmd Htokens]]]]]]].
      rewrite (parseCronExpression_fields _ _ _ _ _ _ _ _ Htokens) in Hrun.
      destruct (parseField f0 0 59) as [v0|] eqn:H0; cbn [bind] in Hrun; [|discriminate].
      destruct (parseField f1 0 23) as [v1|] eqn:H1; cbn [bind] in Hrun; [|discriminate].
      destruct (parseField f2 1 31) as [v2|] eqn:H2; cbn [bind] in Hrun; [|discriminate].
      destruct (parseField f3 1 12) as [v3|] eqn:H3; cbn [bind] in Hrun; [|discriminate].
      destruct (parseField f4 0 6) as [v4|] eqn:H4; cbn [bind] in Hrun; [|discriminate].
      exists f0, f1, f2, f3, f4, c, cmd, v0, v1, v2, v3, v4.
      repeat (split; [assumption || reflexivity|]). assumption.
  - intros [f0 [f1 [f2 [f3 [f4 [c [cmd [v0 [v1 [v2 [v3 [v4
             [Htokens [H0 [H1 [H2 [H3 H4]]]]]]]]]]]]]]]]].
    rewrite (parseCronExpression_fields _ _ _ _ _ _ _ _ Htokens).
    rewrite H0, H1, H2, H3, H4. cbn [bind]. eexists; reflexivity.
Qed.

Lemma parseField_succeeds_iff_parts_witness :
  exists result_, parseField "1-5,10,*/20" 0 59 = Ok result_.
Proof.
  apply (proj2 (parseField_succeeds_iff_parts "1-5,10,*/20" 0 59)).
  repeat constructor; eexists; reflexivity.
Defined.

Lemma parseCronExpression_succeeds_iff_witness :
  exists report, parseCronExpression "0 9 * * 1-5 /bin/backup now" = Ok report.
Proof.
  apply (proj2 (parseCronExpression_succeeds_iff "0 9 * * 1-5 /bin/backup now")).
  exists "0", "9", "*", "*", "1-5", "/bin/backup", ["now"].
  do 5 eexists. repeat split; reflexivity.
Defined.
